(** * Watcher 1.0: the page checker [watcher_checker.py]

    A shallow embedding of the price/availability/details extraction, of the
    snapshot differ and of the per-URL check with its state store, followed by
    the properties the specification states about them.

    Conventions of the embedding.
    - A Python [str] is the list of its Unicode code points ([list N]); a
      literal is written [u "..."], the UTF-8 decoding of the bytes between
      the quotes.
    - [Optional[T]] is [option T]; a call that may raise returns a [result].
    - A Python [float] is an IEEE 754 binary64 value, given by the Standard
      Library's [spec_float] at precision 53 and maximal exponent 1024.
    - [re], [str], [float] and BeautifulSoup belong to the Python runtime and
      to third-party packages: they are modelled from their documented
      behaviour, on the fragment the script uses.  The character tables
      (white space, decimal digits, lower case, cased characters and the
      extra case equivalences of [re]) are those of Python 3.11, whose
      Unicode database has version 14.0.0. *)

From stdpp Require Import gmap list strings.
From Stdlib Require Import ZArith NArith Lia.
From Stdlib Require Import Floats.SpecFloat.

Set Warnings "-register-all".
Local Open Scope N_scope.

(** ** Strings *)

Module Str.

Abbreviation char := N.
Abbreviation str := (list N).

(** UTF-8 decoding of a literal: [need] continuation bytes are still due for
    the code point accumulated in [acc]. *)
Fixpoint utf8_decode (acc : N) (need : nat) (bs : list N) : str :=
  match bs with
  | [] => []
  | b :: bs' =>
      match need with
      | O =>
          if b <? 128 then b :: utf8_decode 0 0 bs'
          else if b <? 224 then utf8_decode (b - 192) 1 bs'
          else if b <? 240 then utf8_decode (b - 224) 2 bs'
          else utf8_decode (b - 240) 3 bs'
      | S O => (acc * 64 + (b - 128)) :: utf8_decode 0 0 bs'
      | S n => utf8_decode (acc * 64 + (b - 128)) n bs'
      end
  end.

Definition u (s : string) : str :=
  utf8_decode 0 0 (List.map Ascii.N_of_ascii (String.list_ascii_of_string s)).

(** [str.isspace] on one code point (the interpreter's whitespace table). *)
Definition is_space (c : char) : bool :=
  ((9 <=? c) && (c <=? 13)) || ((28 <=? c) && (c <=? 32))
  || (c =? 133) || (c =? 160) || (c =? 5760)
  || ((8192 <=? c) && (c <=? 8202))
  || (c =? 8232) || (c =? 8233) || (c =? 8239) || (c =? 8287) || (c =? 12288).

Definition in_range (c : char) (r : N * N) : bool := (r.1 <=? c) && (c <=? r.2).

(** The decimal digits (general category Nd), as ranges of code points: each
    range holds the digits 0 to 9 in order, the range of the mathematical
    digits five times over. *)
Definition digit_ranges : list (N * N) :=
  [(48, 57); (1632, 1641); (1776, 1785); (1984, 1993); (2406, 2415);
   (2534, 2543); (2662, 2671); (2790, 2799); (2918, 2927); (3046, 3055);
   (3174, 3183); (3302, 3311); (3430, 3439); (3558, 3567); (3664, 3673);
   (3792, 3801); (3872, 3881); (4160, 4169); (4240, 4249); (6112, 6121);
   (6160, 6169); (6470, 6479); (6608, 6617); (6784, 6793); (6800, 6809);
   (6992, 7001); (7088, 7097); (7232, 7241); (7248, 7257); (42528, 42537);
   (43216, 43225); (43264, 43273); (43472, 43481); (43504, 43513); (43600, 43609);
   (44016, 44025); (65296, 65305); (66720, 66729); (68912, 68921); (69734, 69743);
   (69872, 69881); (69942, 69951); (70096, 70105); (70384, 70393); (70736, 70745);
   (70864, 70873); (71248, 71257); (71360, 71369); (71472, 71481); (71904, 71913);
   (72016, 72025); (72784, 72793); (73040, 73049); (73120, 73129); (92768, 92777);
   (92864, 92873); (93008, 93017); (120782, 120831); (123200, 123209); (123632, 123641);
   (125264, 125273); (130032, 130041)].

(** What [\d] matches. *)
Definition is_digit (c : char) : bool := List.existsb (in_range c) digit_ranges.

(** [unicodedata.decimal]: the value of a decimal digit. *)
Definition decimal (c : char) : option N :=
  match List.find (in_range c) digit_ranges with
  | Some r => Some ((c - r.1) mod 10)
  | None => None
  end.

(** The simple lower-case mapping, as arithmetic progressions of code points:
    [(first, last, stride, target)] sends [first], [first + stride], ... up to
    [last] to [target], [target + stride], ... *)
Definition lower_table : list (N * N * N * N) :=
  [(65, 90, 1, 97); (192, 214, 1, 224); (216, 222, 1, 248); (256, 302, 2, 257);
   (304, 304, 1, 105); (306, 310, 2, 307); (313, 327, 2, 314); (330, 374, 2, 331);
   (376, 376, 1, 255); (377, 381, 2, 378); (385, 385, 1, 595); (386, 388, 2, 387);
   (390, 390, 1, 596); (391, 391, 1, 392); (393, 394, 1, 598); (395, 395, 1, 396);
   (398, 398, 1, 477); (399, 399, 1, 601); (400, 400, 1, 603); (401, 401, 1, 402);
   (403, 403, 1, 608); (404, 404, 1, 611); (406, 406, 1, 617); (407, 407, 1, 616);
   (408, 408, 1, 409); (412, 412, 1, 623); (413, 413, 1, 626); (415, 415, 1, 629);
   (416, 420, 2, 417); (422, 422, 1, 640); (423, 423, 1, 424); (425, 425, 1, 643);
   (428, 428, 1, 429); (430, 430, 1, 648); (431, 431, 1, 432); (433, 434, 1, 650);
   (435, 437, 2, 436); (439, 439, 1, 658); (440, 440, 1, 441); (444, 444, 1, 445);
   (452, 452, 1, 454); (453, 453, 1, 454); (455, 455, 1, 457); (456, 456, 1, 457);
   (458, 458, 1, 460); (459, 475, 2, 460); (478, 494, 2, 479); (497, 497, 1, 499);
   (498, 500, 2, 499); (502, 502, 1, 405); (503, 503, 1, 447); (504, 542, 2, 505);
   (544, 544, 1, 414); (546, 562, 2, 547); (570, 570, 1, 11365); (571, 571, 1, 572);
   (573, 573, 1, 410); (574, 574, 1, 11366); (577, 577, 1, 578); (579, 579, 1, 384);
   (580, 580, 1, 649); (581, 581, 1, 652); (582, 590, 2, 583); (880, 882, 2, 881);
   (886, 886, 1, 887); (895, 895, 1, 1011); (902, 902, 1, 940); (904, 906, 1, 941);
   (908, 908, 1, 972); (910, 911, 1, 973); (913, 929, 1, 945); (931, 939, 1, 963);
   (975, 975, 1, 983); (984, 1006, 2, 985); (1012, 1012, 1, 952); (1015, 1015, 1, 1016);
   (1017, 1017, 1, 1010); (1018, 1018, 1, 1019); (1021, 1023, 1, 891); (1024, 1039, 1, 1104);
   (1040, 1071, 1, 1072); (1120, 1152, 2, 1121); (1162, 1214, 2, 1163); (1216, 1216, 1, 1231);
   (1217, 1229, 2, 1218); (1232, 1326, 2, 1233); (1329, 1366, 1, 1377); (4256, 4293, 1, 11520);
   (4295, 4295, 1, 11559); (4301, 4301, 1, 11565); (5024, 5103, 1, 43888); (5104, 5109, 1, 5112);
   (7312, 7354, 1, 4304); (7357, 7359, 1, 4349); (7680, 7828, 2, 7681); (7838, 7838, 1, 223);
   (7840, 7934, 2, 7841); (7944, 7951, 1, 7936); (7960, 7965, 1, 7952); (7976, 7983, 1, 7968);
   (7992, 7999, 1, 7984); (8008, 8013, 1, 8000); (8025, 8031, 2, 8017); (8040, 8047, 1, 8032);
   (8072, 8079, 1, 8064); (8088, 8095, 1, 8080); (8104, 8111, 1, 8096); (8120, 8121, 1, 8112);
   (8122, 8123, 1, 8048); (8124, 8124, 1, 8115); (8136, 8139, 1, 8050); (8140, 8140, 1, 8131);
   (8152, 8153, 1, 8144); (8154, 8155, 1, 8054); (8168, 8169, 1, 8160); (8170, 8171, 1, 8058);
   (8172, 8172, 1, 8165); (8184, 8185, 1, 8056); (8186, 8187, 1, 8060); (8188, 8188, 1, 8179);
   (8486, 8486, 1, 969); (8490, 8490, 1, 107); (8491, 8491, 1, 229); (8498, 8498, 1, 8526);
   (8544, 8559, 1, 8560); (8579, 8579, 1, 8580); (9398, 9423, 1, 9424); (11264, 11311, 1, 11312);
   (11360, 11360, 1, 11361); (11362, 11362, 1, 619); (11363, 11363, 1, 7549); (11364, 11364, 1, 637);
   (11367, 11371, 2, 11368); (11373, 11373, 1, 593); (11374, 11374, 1, 625); (11375, 11375, 1, 592);
   (11376, 11376, 1, 594); (11378, 11378, 1, 11379); (11381, 11381, 1, 11382); (11390, 11391, 1, 575);
   (11392, 11490, 2, 11393); (11499, 11501, 2, 11500); (11506, 11506, 1, 11507); (42560, 42604, 2, 42561);
   (42624, 42650, 2, 42625); (42786, 42798, 2, 42787); (42802, 42862, 2, 42803); (42873, 42875, 2, 42874);
   (42877, 42877, 1, 7545); (42878, 42886, 2, 42879); (42891, 42891, 1, 42892); (42893, 42893, 1, 613);
   (42896, 42898, 2, 42897); (42902, 42920, 2, 42903); (42922, 42922, 1, 614); (42923, 42923, 1, 604);
   (42924, 42924, 1, 609); (42925, 42925, 1, 620); (42926, 42926, 1, 618); (42928, 42928, 1, 670);
   (42929, 42929, 1, 647); (42930, 42930, 1, 669); (42931, 42931, 1, 43859); (42932, 42946, 2, 42933);
   (42948, 42948, 1, 42900); (42949, 42949, 1, 642); (42950, 42950, 1, 7566); (42951, 42953, 2, 42952);
   (42960, 42960, 1, 42961); (42966, 42968, 2, 42967); (42997, 42997, 1, 42998); (65313, 65338, 1, 65345);
   (66560, 66599, 1, 66600); (66736, 66771, 1, 66776); (66928, 66964, 2, 66967); (66929, 66937, 2, 66968);
   (66941, 66953, 2, 66980); (66957, 66961, 2, 66996); (66965, 66965, 1, 67004); (68736, 68786, 1, 68800);
   (71840, 71871, 1, 71872); (93760, 93791, 1, 93792); (125184, 125217, 1, 125218)].

Definition lower_entry (c : char) (e : N * N * N * N) : bool :=
  let '(first, last, stride, _) := e in
  (first <=? c) && (c <=? last) && ((c - first) mod stride =? 0).

(** The lower case of one code point (what [re] calls [unicode_tolower]). *)
Definition lower (c : char) : char :=
  match List.find (lower_entry c) lower_table with
  | Some (first, _, _, target) => target + (c - first)
  | None => c
  end.

(** The cased characters: those that differ from their lower case or from
    their upper case. *)
Definition cased_ranges : list (N * N) :=
  [(65, 90); (97, 122); (181, 181); (192, 214); (216, 246);
   (248, 311); (313, 396); (398, 410); (412, 425); (428, 441);
   (444, 445); (447, 447); (452, 544); (546, 563); (570, 596);
   (598, 599); (601, 601); (603, 604); (608, 609); (611, 611);
   (613, 614); (616, 620); (623, 623); (625, 626); (629, 629);
   (637, 637); (640, 640); (642, 643); (647, 652); (658, 658);
   (669, 670); (837, 837); (880, 883); (886, 887); (891, 893);
   (895, 895); (902, 902); (904, 906); (908, 908); (910, 929);
   (931, 977); (981, 1013); (1015, 1019); (1021, 1153); (1162, 1327);
   (1329, 1366); (1377, 1415); (4256, 4293); (4295, 4295); (4301, 4301);
   (4304, 4346); (4349, 4351); (5024, 5109); (5112, 5117); (7296, 7304);
   (7312, 7354); (7357, 7359); (7545, 7545); (7549, 7549); (7566, 7566);
   (7680, 7835); (7838, 7838); (7840, 7957); (7960, 7965); (7968, 8005);
   (8008, 8013); (8016, 8023); (8025, 8025); (8027, 8027); (8029, 8029);
   (8031, 8061); (8064, 8116); (8118, 8124); (8126, 8126); (8130, 8132);
   (8134, 8140); (8144, 8147); (8150, 8155); (8160, 8172); (8178, 8180);
   (8182, 8188); (8486, 8486); (8490, 8491); (8498, 8498); (8526, 8526);
   (8544, 8575); (8579, 8580); (9398, 9449); (11264, 11376); (11378, 11379);
   (11381, 11382); (11390, 11491); (11499, 11502); (11506, 11507); (11520, 11557);
   (11559, 11559); (11565, 11565); (42560, 42605); (42624, 42651); (42786, 42799);
   (42802, 42863); (42873, 42887); (42891, 42893); (42896, 42900); (42902, 42926);
   (42928, 42954); (42960, 42961); (42966, 42969); (42997, 42998); (43859, 43859);
   (43888, 43967); (64256, 64262); (64275, 64279); (65313, 65338); (65345, 65370);
   (66560, 66639); (66736, 66771); (66776, 66811); (66928, 66938); (66940, 66954);
   (66956, 66962); (66964, 66965); (66967, 66977); (66979, 66993); (66995, 67001);
   (67003, 67004); (68736, 68786); (68800, 68850); (71840, 71903); (93760, 93823);
   (125184, 125251)].

Definition iscased (c : char) : bool := List.existsb (in_range c) cased_ranges.

(** The characters that [re] takes for equal to a lower-case character under
    IGNORECASE although they have another lower case (its table of extra
    cases). *)
Definition extra_cases_table : list (N * list N) :=
  [(105, [305]); (115, [383]); (181, [956]); (305, [105]);
   (383, [115]); (837, [953; 8126]); (912, [8147]); (944, [8163]);
   (946, [976]); (949, [1013]); (952, [977]); (953, [837; 8126]);
   (954, [1008]); (956, [181]); (960, [982]); (961, [1009]);
   (962, [963]); (963, [962]); (966, [981]); (976, [946]);
   (977, [952]); (981, [966]); (982, [960]); (1008, [954]);
   (1009, [961]); (1013, [949]); (1074, [7296]); (1076, [7297]);
   (1086, [7298]); (1089, [7299]); (1090, [7300; 7301]); (1098, [7302]);
   (1123, [7303]); (7296, [1074]); (7297, [1076]); (7298, [1086]);
   (7299, [1089]); (7300, [1090; 7301]); (7301, [1090; 7300]); (7302, [1098]);
   (7303, [1123]); (7304, [42571]); (7777, [7835]); (7835, [7777]);
   (8126, [837; 953]); (8147, [912]); (8163, [944]); (42571, [7304]);
   (64261, [64262]); (64262, [64261])].

Definition extra_cases (lo : char) : list char :=
  match List.find (fun e => e.1 =? lo) extra_cases_table with
  | Some e => e.2
  | None => []
  end.

Fixpoint lstrip (s : str) : str :=
  match s with
  | c :: s' => if is_space c then lstrip s' else s
  | [] => []
  end.

Definition rstrip (s : str) : str := rev (lstrip (rev s)).

(** [s.strip()] *)
Definition strip (s : str) : str := rstrip (lstrip s).

(** [s.split()]: the maximal runs of non-whitespace, in order.  [cur] is the
    run being read, reversed. *)
Fixpoint split_ws (cur : str) (s : str) : list str :=
  match s with
  | [] => match cur with [] => [] | _ => [rev cur] end
  | c :: s' =>
      if is_space c
      then match cur with [] => split_ws [] s' | _ => rev cur :: split_ws [] s' end
      else split_ws (c :: cur) s'
  end.

Definition split (s : str) : list str := split_ws [] s.

(** [sep.join(l)] *)
Fixpoint join (sep : str) (l : list str) : str :=
  match l with
  | [] => []
  | [x] => x
  | x :: l' => x ++ sep ++ join sep l'
  end.

(** [s.replace(c, new)] for a one-character pattern [c]. *)
Definition replace (c : char) (new : str) (s : str) : str :=
  List.flat_map (fun x => if x =? c then new else [x]) s.

Definition eqb (a b : str) : bool := bool_decide (a = b).

(** [d in l] for a list of strings. *)
Definition mem (d : str) (l : list str) : bool := List.existsb (eqb d) l.

(** [sub in s]: some suffix of [s] starts with [sub]. *)
Fixpoint prefix_of (p s : str) : bool :=
  match p, s with
  | [], _ => true
  | a :: p', b :: s' => (a =? b) && prefix_of p' s'
  | _ :: _, [] => false
  end.

Fixpoint contains (sub s : str) : bool :=
  prefix_of sub s || match s with [] => false | _ :: s' => contains sub s' end.

(** Decimal numeral of a natural number. *)
Fixpoint of_uint (d : Decimal.uint) : str :=
  match d with
  | Decimal.Nil => []
  | Decimal.D0 r => 48 :: of_uint r
  | Decimal.D1 r => 49 :: of_uint r
  | Decimal.D2 r => 50 :: of_uint r
  | Decimal.D3 r => 51 :: of_uint r
  | Decimal.D4 r => 52 :: of_uint r
  | Decimal.D5 r => 53 :: of_uint r
  | Decimal.D6 r => 54 :: of_uint r
  | Decimal.D7 r => 55 :: of_uint r
  | Decimal.D8 r => 56 :: of_uint r
  | Decimal.D9 r => 57 :: of_uint r
  end.

Definition of_N (n : N) : str := of_uint (N.to_uint n).

End Str.

Import Str.

(** ** Regular expressions

    The fragment of [re] the script uses, with the engine's backtracking
    order: alternatives left to right, repetitions greedy.  None of the
    script's patterns has an anchor, a lazy quantifier or a back-reference. *)

Module Re.

(** The members of a bracketed class. *)
Inductive citem :=
| IChar (c : char)           (* a character *)
| IDigit                     (* [\d] *)
| ISpace.                    (* [\s] *)

(** One-character matchers. *)
Inductive cset :=
| CLit (c : char)                           (* a literal character *)
| CDot                                      (* [.] without DOTALL *)
| CClass (negated : bool) (l : list citem). (* [[...]] and [[^...]] *)

Definition CDigit : cset := CClass false [IDigit].
Definition CSpace : cset := CClass false [ISpace].
Definition COneOf (l : list char) : cset := CClass false (List.map IChar l).
Definition CNoneOf (l : list char) : cset := CClass true (List.map IChar l).

Inductive regex :=
| RSet (cs : cset)
| REps
| RSeq (a b : regex)
| RAlt (a b : regex)
| RRep (lo : nat) (hi : option nat) (a : regex)   (* a{lo,hi}, greedy *)
| RGroup (i : nat) (a : regex).                   (* capturing group i *)

Definition ROpt (a : regex) : regex := RRep 0 (Some 1%nat) a.
Definition RStar (a : regex) : regex := RRep 0 None a.
Definition RPlus (a : regex) : regex := RRep 1 None a.

(** A literal string; [re.escape(keyword)] denotes the same pattern. *)
Fixpoint RLit (s : str) : regex :=
  match s with
  | [] => REps
  | c :: s' => RSeq (RSet (CLit c)) (RLit s')
  end.

(** The lower-case characters a pattern character stands for under
    IGNORECASE: its own lower case and the extra cases of that. *)
Definition folded (c : char) : list char := lower c :: extra_cases (lower c).

(** The text character [x] against the pattern character [c]; [ic] is the
    IGNORECASE flag.  Under the flag a cased [c] is compiled to the set
    [folded c], which the lower case of [x] is looked up in; a character
    without case is compared as it is. *)
Definition char_eq (ic : bool) (x c : char) : bool :=
  if ic && iscased c
  then List.existsb (N.eqb (lower x)) (folded c)
  else x =? c.

(** A class with a cased member is matched, under IGNORECASE, against the
    lower case of the text character. *)
Definition class_cased (l : list citem) : bool :=
  List.existsb (fun i => match i with IChar c => iscased c | _ => false end) l.

(** [y] is the text character, lowered when the class is matched so. *)
Definition citem_mem (ic : bool) (y : char) (i : citem) : bool :=
  match i with
  | IChar c => if ic then List.existsb (N.eqb y) (folded c) else y =? c
  | IDigit => is_digit y
  | ISpace => is_space y
  end.

Definition cset_mem (ic : bool) (cs : cset) (x : char) : bool :=
  match cs with
  | CLit c => char_eq ic x c
  | CDot => negb (x =? 10)
  | CClass neg l =>
      let y := if ic && class_cased l then lower x else x in
      xorb neg (List.existsb (citem_mem ic y) l)
  end.

(** Captured groups, most recent binding first. *)
Definition caps := list (nat * str).

Fixpoint group (c : caps) (i : nat) : option str :=
  match c with
  | [] => None
  | (j, s) :: c' => if Nat.eqb i j then Some s else group c' i
  end.

(** The text consumed between the input [s] and its suffix [s']. *)
Definition consumed (s s' : str) : str := take (length s - length s') s.

Section Matcher.
Context {A : Type}.
Variable ic : bool.

(** The continuation of a sub-match: the remaining input and the groups. *)
Definition kont := str -> caps -> option A.

(** Greedy repetition: at most [n] more iterations, at least [lo]. *)
Fixpoint rep (step : str -> caps -> kont -> option A)
    (lo n : nat) (s : str) (c : caps) (k : kont) : option A :=
  match n with
  | O => match lo with O => k s c | S _ => None end
  | S n' =>
      match step s c (fun s' c' => rep step (Nat.pred lo) n' s' c' k) with
      | Some r => Some r
      | None => match lo with O => k s c | S _ => None end
      end
  end.

(** An unbounded repetition runs at most once per remaining character: every
    repeated sub-pattern of the script consumes at least one. *)
Fixpoint mt (r : regex) (s : str) (c : caps) (k : kont) : option A :=
  match r with
  | RSet cs =>
      match s with
      | x :: s' => if cset_mem ic cs x then k s' c else None
      | [] => None
      end
  | REps => k s c
  | RSeq a b => mt a s c (fun s' c' => mt b s' c' k)
  | RAlt a b =>
      match mt a s c k with
      | Some r => Some r
      | None => mt b s c k
      end
  | RRep lo hi a =>
      rep (mt a) lo (match hi with Some h => h | None => length s end) s c k
  | RGroup i a =>
      mt a s c (fun s' c' => k s' ((i, consumed s s') :: c'))
  end.
End Matcher.

(** A match object: [group(0)] and the numbered groups. *)
Record rmatch := { group0 : str; groups : caps }.

(** [re.match]: a match starting at the head of [s]. *)
Definition match_at (ic : bool) (r : regex) (s : str) : option rmatch :=
  mt ic r s [] (fun s' c => Some {| group0 := consumed s s'; groups := c |}).

(** [re.search]: the leftmost position with a match. *)
Fixpoint search (ic : bool) (r : regex) (s : str) : option rmatch :=
  match match_at ic r s with
  | Some m => Some m
  | None => match s with [] => None | _ :: s' => search ic r s' end
  end.

End Re.

Import Re.

(** ** Exceptions *)

Inductive exn_class :=
| ValueError | TypeError | AttributeError | ZeroDivisionError | RequestException.

(** An exception: its class and [str(e)]. *)
Record exn := Exn { exn_cls : exn_class; exn_msg : str }.

Inductive result (A : Type) :=
| Ok (a : A)
| Raise (e : exn).
Arguments Ok {A} a.
Arguments Raise {A} e.

#[global] Instance result_ret : MRet result := fun A a => Ok a.
#[global] Instance result_bind : MBind result := fun A B f m =>
  match m with
  | Ok a => f a
  | Raise e => Raise e
  end.

(** [try: body / except Exception: handler] *)
Definition try_except {A} (body : result A) (handler : exn -> result A) : result A :=
  match body with
  | Ok a => Ok a
  | Raise e => handler e
  end.

(** ** Floats *)

Module Float.
Local Open Scope Z_scope.

Definition prec : Z := 53.
Definition emax : Z := 1024.
Abbreviation float := spec_float.

Definition sub : float -> float -> float := SFsub prec emax.
Definition mul : float -> float -> float := SFmul prec emax.

Definition is_zero (x : float) : bool :=
  match x with S754_zero _ => true | _ => false end.

(** Division; by zero it raises. *)
Definition div (a b : float) : result float :=
  if is_zero b
  then Raise (Exn ZeroDivisionError (u "float division by zero"))
  else Ok (SFdiv prec emax a b).

(** The float nearest to [m * 10^e], ties to even: how [float()] reads a
    decimal numeral. *)
Definition of_decimal (neg : bool) (m e : Z) : float :=
  match m with
  | Zpos p =>
      if 0 <=? e
      then (let v := binary_normalize prec emax (m * 10 ^ e) 0 false in
            if neg then SFopp v else v)
      else SFdiv prec emax (S754_finite neg p 0)
                           (S754_finite false (Z.to_pos (10 ^ (- e))) 0)
  | _ => S754_zero neg
  end.

Definition of_Z (n : Z) : float := of_decimal false n 0.

(** [float] first rewrites its argument in ASCII: a character below 127
    stays, any other white space becomes a space and any other decimal digit
    the ASCII digit of its value; at the first character of another kind the
    copy ends with a question mark. *)
Definition ascii_of (c : char) : option char :=
  if (c <? 127)%N then Some c
  else if is_space c then Some 32%N
  else match decimal c with
       | Some d => Some (48 + d)%N
       | None => None
       end.

Fixpoint to_ascii (s : str) : str :=
  match s with
  | [] => []
  | c :: s' =>
      match ascii_of c with
      | Some a => a :: to_ascii s'
      | None => [63%N]
      end
  end.

(** The white space of the C locale, which the parser skips at both ends. *)
Definition ascii_space (c : char) : bool :=
  (((9 <=? c) && (c <=? 13)) || (c =? 32))%N.

Fixpoint skip_spaces (s : str) : str :=
  match s with
  | c :: s' => if ascii_space c then skip_spaces s' else s
  | [] => []
  end.

Definition trim (s : str) : str := rev (skip_spaces (rev (skip_spaces s))).

(** The digits of the numeral grammar are the ASCII ones. *)
Definition ascii_digit (c : char) : bool := ((48 <=? c) && (c <=? 57))%N.
Definition digit_value (c : char) : Z := Z.of_N (c - 48).

Definition sign (s : str) : bool * str :=
  match s with
  | 45%N :: s' => (true, s')
  | 43%N :: s' => (false, s')
  | _ => (false, s)
  end.

(** [digit (["_"] digit)*], after its first digit: the value read so far, the
    number of digits, and the rest of the input. *)
Fixpoint digits_tail (v : Z) (n : nat) (s : str) : Z * nat * str :=
  match s with
  | c :: s' =>
      if ascii_digit c then digits_tail (10 * v + digit_value c) (S n) s'
      else if (c =? 95)%N then
        match s' with
        | d :: s'' =>
            if ascii_digit d
            then digits_tail (10 * v + digit_value d) (S n) s''
            else (v, n, s)
        | [] => (v, n, s)
        end
      else (v, n, s)
  | [] => (v, n, s)
  end.

Definition digitpart (s : str) : option (Z * nat * str) :=
  match s with
  | c :: s' => if ascii_digit c then Some (digits_tail (digit_value c) 1 s') else None
  | [] => None
  end.

(** [[digitpart] "." digitpart | digitpart ["."]]: mantissa, decimal
    exponent, rest. *)
Definition number (s : str) : option (Z * Z * str) :=
  match digitpart s with
  | Some (ip, _, rest) =>
      match rest with
      | 46%N :: rest' =>
          match digitpart rest' with
          | Some (fp, n, rest'') =>
              (* the fraction digits continue the integer part's *)
              Some (ip * 10 ^ Z.of_nat n + fp, - Z.of_nat n, rest'')
          | None => Some (ip, 0, rest')
          end
      | _ => Some (ip, 0, rest)
      end
  | None =>
      match s with
      | 46%N :: rest' =>
          match digitpart rest' with
          | Some (fp, n, rest'') => Some (fp, - Z.of_nat n, rest'')
          | None => None
          end
      | _ => None
      end
  end.

(** [("e" | "E") [sign] digitpart] *)
Definition exponent (s : str) : option (Z * str) :=
  match s with
  | c :: s' =>
      if ((c =? 101) || (c =? 69))%N then
        let '(neg, s'') := sign s' in
        match digitpart s'' with
        | Some (v, _, rest) => Some (if neg then - v else v, rest)
        | None => None
        end
      else None
  | [] => None
  end.

Definition ascii_lower (c : char) : char :=
  if ((65 <=? c) && (c <=? 90))%N then (c + 32)%N else c.

Definition value_error : exn :=
  Exn ValueError (u "could not convert string to float").

(** The parser proper, on the ASCII copy. *)
Definition parse (s : str) : result float :=
  let '(neg, body) := sign (trim s) in
  let lb := List.map ascii_lower body in
  if Str.eqb lb (u "inf") || Str.eqb lb (u "infinity") then Ok (S754_infinity neg)
  else if Str.eqb lb (u "nan") then Ok S754_nan
  else
    match number body with
    | Some (m, e, []) => Ok (of_decimal neg m e)
    | Some (m, e, rest) =>
        match exponent rest with
        | Some (x, []) => Ok (of_decimal neg m (e + x))
        | _ => Raise value_error
        end
    | None => Raise value_error
    end.

(** [float(s)] for a string [s]. *)
Definition of_str (s : str) : result float := parse (to_ascii s).

(** [n / d] rounded to the nearest integer, ties to even ([d > 0]). *)
Definition div_half_even (n d : Z) : Z :=
  let q := n / d in
  match 2 * (n mod d) ?= d with
  | Lt => q
  | Gt => q + 1
  | Eq => if Z.even q then q else q + 1
  end.

Definition two_digits (k : Z) : str :=
  [Z.to_N (48 + k / 10); Z.to_N (48 + k mod 10)].

(** [f"{x:.2f}"], and [f"{x:+.2f}"] when [plus]: the exact value of [x]
    rounded to hundredths, ties to even. *)
Definition format_2f (plus : bool) (x : float) : str :=
  let sgn (neg : bool) := if neg then u "-" else if plus then u "+" else [] in
  match x with
  | S754_nan => sgn false ++ u "nan"
  | S754_infinity s => sgn s ++ u "inf"
  | S754_zero s => sgn s ++ u "0.00"
  | S754_finite s m e =>
      let n := if 0 <=? e then Zpos m * 2 ^ e * 100
               else div_half_even (Zpos m * 100) (2 ^ (- e)) in
      sgn s ++ of_N (Z.to_N (n / 100)) ++ u "." ++ two_digits (n mod 100)
  end.

End Float.

(** ** The normalizer *)

(** [\d{1,3}(?:[ \xa0]\d{3})*(?:[.,]\d+)?]: a number with thousands
    separators, shared by the two price patterns. *)
Definition grouped_number : regex :=
  RSeq (RRep 1 (Some 3%nat) (RSet CDigit))
    (RSeq (RStar (RSeq (RSet (COneOf [32; 160])) (RRep 3 (Some 3%nat) (RSet CDigit))))
          (ROpt (RSeq (RSet (COneOf [46; 44])) (RPlus (RSet CDigit))))).

(** [([€$]|Kč|CZK)?\s*([+-]?\d{1,3}(?:[ \xa0]\d{3})*(?:[.,]\d+)?)\s*(Kč|CZK|€|\$)?] *)
Definition price_pattern : regex :=
  RSeq (ROpt (RGroup 1 (RAlt (RSet (COneOf [8364; 36]))
                       (RAlt (RLit (u "Kč")) (RLit (u "CZK"))))))
    (RSeq (RStar (RSet CSpace))
      (RSeq (RGroup 2 (RSeq (ROpt (RSet (COneOf [43; 45]))) grouped_number))
        (RSeq (RStar (RSet CSpace))
          (ROpt (RGroup 3 (RAlt (RLit (u "Kč"))
                          (RAlt (RLit (u "CZK"))
                          (RAlt (RLit [8364]) (RLit [36]))))))))).

(** The loose pattern: one group, holding an optional sign, a digit, and any
    run of digits, spaces, no-break spaces, periods and commas. *)
Definition loose_number_pattern : regex :=
  RGroup 1 (RSeq (ROpt (RSet (COneOf [43; 45])))
             (RSeq (RSet CDigit)
                   (RStar (RSet (CClass false
                      [IDigit; IChar 32; IChar 160; IChar 46; IChar 44]))))).

(** [m.group(i)] of a group the match went through. *)
Definition group_of (m : rmatch) (i : nat) : result str :=
  match group (groups m) i with
  | Some g => Ok g
  | None =>
      Raise (Exn AttributeError (u "'NoneType' object has no attribute 'replace'"))
  end.

(** Line 97: no-break spaces and spaces removed, commas turned into periods. *)
Definition num_norm (num : str) : str :=
  replace 44 (u ".") (replace 32 [] (replace 160 [] num)).

(** Lines 97-102: normalize the candidate, parse it, print it with two
    fraction digits; the candidate itself when it does not parse. *)
Definition price_of_candidate (num : str) : result (option str) :=
  try_except
    (val ← Float.of_str (num_norm num);
     Ok (Some (Float.format_2f false val)))
    (fun _ => Ok (Some (num_norm num))).

Definition normalize_price (text : option str) : result (option str) :=
  match text with
  | None | Some [] => Ok None
  | Some text =>
      let t := strip text in
      match search false price_pattern t with
      | None =>
          match search false loose_number_pattern t with
          | None => Ok (Some t)
          | Some m2 => num ← group_of m2 1; price_of_candidate num
          end
      | Some m => num ← group_of m 2; price_of_candidate num
      end
  end.

(** ** Snapshots and the differ *)

(** The dictionary [check_page] builds and the state store keeps. *)
Record Snapshot := {
  price : option str;
  availability : option str;
  details : list str;
  checked_at : str
}.

(** The dictionary [summarize_changes] returns. *)
Record ChangeReport := {
  changed : bool;
  changes : list str;
  old : option Snapshot;
  new : Snapshot
}.

(** An optional string, or else the empty string (lines 215 and 230). *)
Definition or_empty (x : option str) : str :=
  match x with
  | Some s => s
  | None => []
  end.

(** [f"{x}"] for an optional string. *)
Definition fmt (x : option str) : str :=
  match x with
  | Some s => s
  | None => u "None"
  end.

(** [float(x) if x is not None else None] *)
Definition float_opt (x : option str) : result (option Float.float) :=
  match x with
  | Some s => a ← Float.of_str s; Ok (Some a)
  | None => Ok None
  end.

(** Lines 220-227: the last message, with the percentage appended when both
    prices are numbers and the old one is not zero; any exception leaves the
    message as it was. *)
Definition with_percentage (msg : str) (old_price new_price : option str) : str :=
  match
    (a ← float_opt old_price;
     b ← float_opt new_price;
     match a, b with
     | Some a, Some b =>
         if negb (Float.is_zero a) then
           q ← Float.div (Float.sub b a) a;
           let pct := Float.mul q (Float.of_Z 100) in
           Ok (msg ++ u " (" ++ Float.format_2f true pct ++ u "%)")
         else Ok msg
     | _, _ => Ok msg
     end)
  with
  | Ok msg' => msg'
  | Raise _ => msg
  end.

(** The two locals of [summarize_changes]: [changed] and [changes]. *)
Definition diff_state : Type := bool * list str.

(** [changed = True; changes.append(msg)] *)
Definition report (msg : str) (s : diff_state) : diff_state :=
  (true, s.2 ++ [msg]).

Definition compare_price (old_price new_price : option str) (s : diff_state) : diff_state :=
  if negb (Str.eqb (or_empty old_price) (or_empty new_price)) then
    report (with_percentage
              (u "Cena: " ++ fmt old_price ++ u " → " ++ fmt new_price)
              old_price new_price) s
  else s.

Definition compare_availability (old_av new_av : option str) (s : diff_state) : diff_state :=
  if negb (Str.eqb (or_empty old_av) (or_empty new_av)) then
    report (u "Dostupnost: " ++ fmt old_av ++ u " → " ++ fmt new_av) s
  else s.

(** [[d for d in new_det if d not in old_det]] *)
Definition added (old_det new_det : list str) : list str :=
  List.filter (fun d => negb (mem d old_det)) new_det.

(** [[d for d in old_det if d not in new_det]] *)
Definition removed (old_det new_det : list str) : list str :=
  List.filter (fun d => negb (mem d new_det)) old_det.

Definition nonempty {A} (l : list A) : bool :=
  match l with [] => false | _ => true end.

Definition compare_details (old_det new_det : list str) (s : diff_state) : diff_state :=
  let s :=
    if nonempty (added old_det new_det) then
      report (u "Přidáno v podrobnostech: "
              ++ join (u "; ") (take 10 (added old_det new_det))) s
    else s in
  if nonempty (removed old_det new_det) then
    report (u "Odebráno v podrobnostech: "
            ++ join (u "; ") (take 10 (removed old_det new_det))) s
  else s.

Definition no_prior_record : str :=
  u "Žádný předchozí záznam — uloženo jako výchozí stav.".

Definition summarize_changes (old_snapshot : option Snapshot) (new_snapshot : Snapshot)
    : ChangeReport :=
  let s : diff_state :=
    match old_snapshot with
    | None => report no_prior_record (false, [])
    | Some o =>
        let s := compare_price (price o) (price new_snapshot) (false, []) in
        let s := compare_availability (availability o) (availability new_snapshot) s in
        compare_details (details o) (details new_snapshot) s
    end in
  {| changed := s.1; changes := s.2; old := old_snapshot; new := new_snapshot |}.

(** ** The parsed document

    The tree BeautifulSoup builds, with the part of its navigation API the
    extractors call.  A [Text] is a plain string ([NavigableString]); the
    parser gives every other string one of the classes below: a comment, the
    content of a [script], [style], [template], [rt] or [rp] element, a
    CDATA section, a processing instruction, a declaration, a doctype. *)

Module Soup.

Inductive string_class :=
| Comment | CData | ProcessingInstruction | Declaration | Doctype
| Stylesheet | Script | TemplateString | RubyTextString | RubyParenthesisString.

Inductive node :=
| Text (s : str)
| Special (k : string_class) (s : str)
| Tag (name : str) (attrs : list (str * str)) (children : list node).

(** One step of the path from an element up to the root: the enclosing tag,
    the siblings before the element (nearest first) and those after it. *)
Record frame := {
  f_name : str;
  f_attrs : list (str * str);
  f_left : list node;
  f_right : list node
}.

(** An element at its place in the document. *)
Record elem := { here : node; path : list frame }.

Definition is_tag (n : node) : bool :=
  match n with Tag _ _ _ => true | _ => false end.

(** [el.name == name] *)
Definition named (name : str) (n : node) : bool :=
  match n with
  | Tag nm _ _ => Str.eqb nm name
  | _ => false
  end.

(** [el.get(key)] *)
Fixpoint assoc (key : str) (l : list (str * str)) : option str :=
  match l with
  | [] => None
  | (k, v) :: l' => if Str.eqb k key then Some v else assoc key l'
  end.

Definition get (key : str) (n : node) : option str :=
  match n with
  | Tag _ attrs _ => assoc key attrs
  | _ => None
  end.

(** The nodes of a subtree in document order, the root first. *)
Fixpoint nodes (n : node) : list node :=
  n :: match n with
       | Tag _ _ cs => List.flat_map nodes cs
       | _ => []
       end.

Definition descendants (n : node) : list node := tail (nodes n).

(** The elements of a subtree in document order, the root (at [p]) first. *)
Fixpoint elems (n : node) (p : list frame) {struct n} : list elem :=
  {| here := n; path := p |} ::
  match n with
  | Text _ | Special _ _ => []
  | Tag nm at_ cs =>
      (fix go (l cs : list node) {struct cs} : list elem :=
         match cs with
         | [] => []
         | c :: cs' =>
             elems c ({| f_name := nm; f_attrs := at_; f_left := l; f_right := cs' |} :: p)
             ++ go (c :: l) cs'
         end) [] cs
  end.

(** [el.parent] *)
Definition parent (e : elem) : option elem :=
  match path e with
  | [] => None
  | f :: up =>
      Some {| here := Tag (f_name f) (f_attrs f) (rev (f_left f) ++ here e :: f_right f);
              path := up |}
  end.

(** The first tag of [r], with the nodes passed over pushed on [l]. *)
Fixpoint first_tag (l r : list node) : option (list node * node * list node) :=
  match r with
  | [] => None
  | n :: r' => if is_tag n then Some (l, n, r') else first_tag (n :: l) r'
  end.

(** [el.find_next_sibling()]: the next sibling that is a tag. *)
Definition find_next_sibling (e : elem) : option elem :=
  match path e with
  | [] => None
  | f :: up =>
      match first_tag (here e :: f_left f) (f_right f) with
      | Some (l, n, r) =>
          Some {| here := n;
                  path := {| f_name := f_name f; f_attrs := f_attrs f;
                             f_left := l; f_right := r |} :: up |}
      | None => None
      end
  end.

(** [el.next_elements]: everything after the opening of [e], in document
    order: its descendants, its later siblings with theirs, then the same
    for every ancestor. *)
Definition next_elements (e : elem) : list node :=
  descendants (here e)
  ++ List.flat_map (fun f => List.flat_map nodes (f_right f)) (path e).

(** [el.find_next(name)] *)
Definition find_next (name : str) (e : elem) : option node :=
  List.find (named name) (next_elements e).

(** [el.find_all(name)]: the descendants with that tag name. *)
Definition find_all (name : str) (n : node) : list node :=
  List.filter (named name) (descendants n).

(** [el.string]: the only string, of any class, below a chain of only
    children. *)
Fixpoint string_of (n : node) : option str :=
  match n with
  | Text s | Special _ s => Some s
  | Tag _ _ [c] => string_of c
  | Tag _ _ _ => None
  end.

(** The class of string a tag contains by its name, for the five names that
    have one. *)
Definition container (n : node) : option string_class :=
  if named (u "rt") n then Some RubyTextString
  else if named (u "rp") n then Some RubyParenthesisString
  else if named (u "style") n then Some Stylesheet
  else if named (u "script") n then Some Script
  else if named (u "template") n then Some TemplateString
  else None.

Definition same_class (a b : string_class) : bool :=
  match a, b with
  | Comment, Comment | CData, CData | ProcessingInstruction, ProcessingInstruction
  | Declaration, Declaration | Doctype, Doctype | Stylesheet, Stylesheet
  | Script, Script | TemplateString, TemplateString
  | RubyTextString, RubyTextString
  | RubyParenthesisString, RubyParenthesisString => true
  | _, _ => false
  end.

(** The strings [n.get_text] takes from below [n]: those of the one class
    [n] contains by its name, or else the plain strings and the CDATA
    sections. *)
Definition interesting (n x : node) : option str :=
  match x, container n with
  | Text s, None => Some s
  | Special k s, None => if same_class k CData then Some s else None
  | Special k s, Some k' => if same_class k k' then Some s else None
  | _, _ => None
  end.

(** The strings of a subtree that [get_text] joins, in document order. *)
Definition strings (n : node) : list str :=
  List.flat_map (fun x => match interesting n x with Some s => [s] | None => [] end)
                (nodes n).

(** [el.get_text(sep, strip=True)] *)
Definition get_text (sep : str) (n : node) : str :=
  join sep (List.filter nonempty (List.map strip (strings n))).

(** The elements of the whole document below the soup object. *)
Definition all_elems (soup : node) : list elem := tail (elems soup []).

(** [soup.find_all(name, string=pattern)]: the tags with that name whose
    [.string] the pattern finds a match in. *)
Definition find_all_string (ic : bool) (name : str) (pattern : regex) (soup : node)
    : list elem :=
  List.filter
    (fun e => named name (here e) &&
              match string_of (here e) with
              | Some s => bool_decide (is_Some (search ic pattern s))
              | None => false
              end)
    (all_elems soup).

(** [soup.find_all(string=pattern)]: the strings, of any class, the pattern
    finds a match in, each at its place. *)
Definition find_strings (ic : bool) (pattern : regex) (soup : node) : list elem :=
  List.filter
    (fun e => match here e with
              | Text s | Special _ s => bool_decide (is_Some (search ic pattern s))
              | Tag _ _ _ => false
              end)
    (all_elems soup).

(** Simple selectors of the script's CSS: an attribute equal to a value, the
    same on a given tag name, and an attribute containing a value. *)
Inductive selector :=
| AttrEq (attr v : str)
| TagAttrEq (name attr v : str)
| AttrHas (attr v : str).

Definition sel_match (sl : selector) (n : node) : bool :=
  is_tag n &&
  match sl with
  | AttrEq attr v =>
      match get attr n with Some x => Str.eqb x v | None => false end
  | TagAttrEq name attr v =>
      named name n &&
      match get attr n with Some x => Str.eqb x v | None => false end
  | AttrHas attr v =>
      match get attr n with Some x => contains v x | None => false end
  end.

(** [soup.select_one("s1, s2, ...")]: the first tag matching one of them. *)
Definition select_one (sels : list selector) (soup : node) : option node :=
  List.find (fun n => List.existsb (fun sl => sel_match sl n) sels) (descendants soup).

End Soup.

Import Soup.

(** ** The field extractors *)

(** The price followed by a Czech currency token: [grouped_number] in group 1,
    any number of spaces, then [Kč] or [CZK] in group 2. *)
Definition czk_price_pattern : regex :=
  RSeq (RGroup 1 grouped_number)
    (RSeq (RStar (RSet (COneOf [32])))
          (RGroup 2 (RAlt (RLit (u "Kč")) (RLit (u "CZK"))))).

Definition extract_price (soup : node) : result (option str) :=
  match select_one [AttrEq (u "itemprop") (u "price");
                    TagAttrEq (u "meta") (u "itemprop") (u "price")] soup with
  | Some el =>
      if named (u "meta") el
      then normalize_price (get (u "content") el)
      else normalize_price (Some (get_text (u " ") el))
  | None =>
      let text := get_text (u " ") soup in
      match search false czk_price_pattern text with
      | Some m => normalize_price (Some (group0 m))
      | None =>
          match select_one [AttrHas (u "class") (u "price");
                            AttrHas (u "id") (u "price")] soup with
          | Some price_el => normalize_price (Some (get_text (u " ") price_el))
          | None => Ok None
          end
      end
  end.

(** The label [Dostupnost], optional white space, an optional colon or dash,
    optional white space, then group 2: the rest of the line (at least one
    character other than a line feed or a carriage return). *)
Definition dostupnost_pattern : regex :=
  RGroup 1
    (RSeq (RLit (u "Dostupnost"))
      (RSeq (RStar (RSet CSpace))
        (RSeq (ROpt (RSet (COneOf [58; 45])))
          (RSeq (RStar (RSet CSpace))
                (RGroup 2 (RPlus (RSet (CNoneOf [10; 13])))))))).

Definition keywords : list str :=
  [u "Skladem"; u "Vyprodáno"; u "Není skladem"; u "Do týdne"; u "Na objednávku";
   u "Dostupné"; u "Available"; u "Out of stock"; u "In stock"].

(** Up to 40 characters, the keyword, up to 40 characters. *)
Definition context_pattern (keyword : str) : regex :=
  RSeq (RRep 0 (Some 40%nat) (RSet CDot))
    (RSeq (RLit keyword) (RRep 0 (Some 40%nat) (RSet CDot))).

(** Lines 137-141: the loop over the keywords. *)
Fixpoint keyword_step (kws : list str) (text : str) : option str :=
  match kws with
  | [] => None
  | keyword :: kws' =>
      match search true (RLit keyword) text with
      | Some _ =>
          match search true (context_pattern keyword) text with
          | Some mm => Some (strip (group0 mm))
          | None => Some keyword
          end
      | None => keyword_step kws' text
      end
  end.

Definition extract_availability (soup : node) : result (option str) :=
  match select_one [AttrEq (u "itemprop") (u "availability");
                    AttrHas (u "class") (u "availability");
                    AttrHas (u "id") (u "availability")] soup with
  | Some el => Ok (Some (get_text (u " ") el))
  | None =>
      let text := get_text [10] soup in
      match search true dostupnost_pattern text with
      | Some m => g ← group_of m 2; Ok (Some (strip g))
      | None => Ok (keyword_step keywords text)
      end
  end.

(** A loop body either goes on with the list collected so far or leaves the
    function with its result. *)
Inductive flow :=
| Continue (details : list str)
| Return (details : list str).

Definition and_then (f : flow) (k : list str -> flow) : flow :=
  match f with
  | Continue d => k d
  | Return d => Return d
  end.

(** [if details: return details] *)
Definition return_if_any (details : list str) : flow :=
  if nonempty details then Return details else Continue details.

(** [for x in l: details.append(f(x))] *)
Definition append_texts (l : list node) (details : list str) : list str :=
  details ++ List.map (get_text (u " ")) l.

(** Lines 158-167: the walk over at most [count] further siblings. *)
Fixpoint sibling_walk (count : nat) (sib : elem) (details : list str) : list str :=
  match count with
  | O => details
  | S count' =>
      match find_next_sibling sib with
      | None => details
      | Some sib' =>
          let txt := get_text (u " ") (here sib') in
          sibling_walk count' sib' (if nonempty txt then details ++ [txt] else details)
      end
  end.

(** Lines 151-169: one heading. *)
Definition heading_step (hdr : elem) (details : list str) : flow :=
  and_then
    (match find_next_sibling hdr with
     | Some next_el =>
         if named (u "ul") (here next_el) || named (u "ol") (here next_el)
         then return_if_any (append_texts (find_all (u "li") (here next_el)) details)
         else Continue details
     | None => Continue details
     end)
    (fun details => return_if_any (sibling_walk 8 hdr details)).

(** [for x in l: body], a [return] in the body leaving the loop. *)
Fixpoint for_each {A} (l : list A) (body : A -> list str -> flow) (details : list str)
    : flow :=
  match l with
  | [] => Continue details
  | x :: l' => and_then (body x details) (for_each l' body)
  end.

Definition header_tags : list str :=
  [u "h1"; u "h2"; u "h3"; u "h4"; u "h5"; u "h6"].

Definition spec_pattern : regex :=
  RGroup 1 (RAlt (RLit (u "specifikace"))
           (RAlt (RLit (u "specification"))
           (RAlt (RLit (u "parametr")) (RLit (u "parameters"))))).

(** Lines 174-180: one of the first three specification strings. *)
Definition spec_step (sh : elem) (details : list str) : flow :=
  match parent sh with
  | Some par =>
      match find_next (u "ul") par with
      | Some ul => return_if_any (append_texts (find_all (u "li") ul) details)
      | None => Continue details
      end
  | None => Continue details
  end.

(** Lines 182-185: the first 50 list items of the page, the empty ones left out. *)
Definition all_items (soup : node) (details : list str) : list str :=
  details ++ List.filter nonempty
               (List.map (get_text (u " ")) (take 50 (find_all (u "li") soup))).

(** Lines 187-194: the loop that collapses white space and drops empty and
    repeated entries. *)
Fixpoint dedup (seen : gset str) (out : list str) (details : list str) : list str :=
  match details with
  | [] => out
  | d :: details' =>
      let d2 := join (u " ") (split d) in
      if nonempty d2 && negb (bool_decide (d2 ∈ seen))
      then dedup ({[d2]} ∪ seen) (out ++ [d2]) details'
      else dedup seen out details'
  end.

Definition extract_details (soup : node) : list str :=
  match
    and_then
      (for_each header_tags
         (fun header_tag =>
            for_each (find_all_string true header_tag (RLit (u "podrobnost")) soup)
                     heading_step)
         [])
      (for_each (take 3 (find_strings true spec_pattern soup)) spec_step)
  with
  | Return details => details
  | Continue details => dedup ∅ [] (all_items soup details)
  end.

(** ** The state store, the network and the clock *)

(** What the [snapshot] column of a row decodes to: a snapshot written by
    [save_state] ([json.loads] undoes [json.dumps]), or text that does not
    decode.  Only [save_state] writes to the table; a row put there by other
    means, whose text decodes to something that is not a snapshot (a list, a
    number, a dictionary of another shape), is outside the model. *)
Inductive payload :=
| Encoded (s : Snapshot)
| Unparseable (raw : str).

(** A row of [page_state], without its key. *)
Record row := { row_snapshot : payload; row_checked_at : str }.

(** What the run cannot decide: the answer of the network to a GET (the body,
    or the exception [requests] raises), the tree the parser builds from a
    body, and the text of a clock reading. *)
Record Env := {
  http_get : str -> result str;
  lxml : str -> node;
  isoformat : N -> str
}.

(** What the run changes: the table, the clock, the log. *)
Record World := {
  page_state : gmap str row;
  clock : N;
  log : list str
}.

(** Computations on the world that may raise. *)
Definition M (A : Type) : Type := World -> result A * World.

#[global] Instance M_ret : MRet M := fun A a w => (Ok a, w).
#[global] Instance M_bind : MBind M := fun A B f m w =>
  match m w with
  | (Ok a, w') => f a w'
  | (Raise e, w') => (Raise e, w')
  end.

Definition lift {A} (r : result A) : M A := fun w => (r, w).

(** [datetime.utcnow().isoformat() + "Z"]; the clock moves on. *)
Definition utcnow_z (env : Env) : M str := fun w =>
  (Ok (isoformat env (clock w) ++ u "Z"),
   {| page_state := page_state w; clock := clock w + 1; log := log w |}).

Definition logging (line : str) : M unit := fun w =>
  (Ok tt, {| page_state := page_state w; clock := clock w; log := log w ++ [line] |}).

Definition load_state (url : str) : M (option Snapshot) := fun w =>
  (Ok match page_state w !! url with
      | None => None
      | Some r =>
          match row_snapshot r with
          | Encoded s => Some s
          | Unparseable _ => None
          end
      end, w).

(** The upsert of one row. *)
Definition upsert (url : str) (r : row) : M unit := fun w =>
  (Ok tt, {| page_state := <[url := r]> (page_state w);
             clock := clock w; log := log w |}).

Definition save_state (env : Env) (url : str) (snapshot : Snapshot) : M unit :=
  now ← utcnow_z env;
  upsert url {| row_snapshot := Encoded snapshot; row_checked_at := now |}.

Definition fetch_html (env : Env) (url : str) : M str := lift (http_get env url).

(** ** The checker *)

(** The objects a name of [check_page] can be bound to. *)
Inductive pyobj :=
| PyBool (b : bool)
| PyFunction (f : str -> Snapshot -> M unit).

(** [if x:] *)
Definition truthy (x : pyobj) : bool :=
  match x with
  | PyBool b => b
  | PyFunction _ => true
  end.

(** [x(url, snapshot)]: only a function can be called. *)
Definition call (x : pyobj) (url : str) (snapshot : Snapshot) : M unit :=
  match x with
  | PyFunction f => f url snapshot
  | PyBool _ => lift (Raise (Exn TypeError (u "'bool' object is not callable")))
  end.

(** In the body the name [save_state] is the parameter: it hides the
    function [save_state] of the module, at line 263 and at line 264 alike. *)
Definition check_page (env : Env) (url : str) (save_state : bool) : M ChangeReport :=
  let save_state := PyBool save_state in
  html ← fetch_html env url;
  let soup := lxml env html in
  price ← lift (extract_price soup);
  availability ← lift (extract_availability soup);
  let details := extract_details soup in
  now ← utcnow_z env;
  let new_snapshot :=
    {| price := price; availability := availability;
       details := details; checked_at := now |} in
  old_snapshot ← load_state url;
  let summary := summarize_changes old_snapshot new_snapshot in
  if truthy save_state
  then (_ ← call save_state url new_snapshot; mret summary)
  else mret summary.

(** ** The command line *)

(** A value of [results]: a report, or [{"error": message}]. *)
Inductive entry :=
| Report (r : ChangeReport)
| ErrorRecord (message : str).

(** Lines 287-293: the human summary. *)
Definition human_summary (res : ChangeReport) : M unit :=
  _ ← (if changed res
       then (_ ← logging (u "Změny detekovány:");
             foldr (fun c k => _ ← logging (u " - " ++ c); k) (mret tt) (changes res))
       else logging (u "Žádné změny detekovány."));
  logging [].

(** Lines 277-296: the loop over [args.urls]; [no_save] and [json] are the two
    flags. *)
Fixpoint main_loop (env : Env) (urls : list str) (no_save json : bool)
    (results : gmap str entry) (w : World) : gmap str entry * World :=
  match urls with
  | [] => (results, w)
  | url :: urls' =>
      match
        (_ ← logging (u "Kontrola: " ++ url);
         res ← check_page env url (negb no_save);
         let results := <[url := Report res]> results in
         if json then mret results
         else (_ ← human_summary res; mret results)) w
      with
      | (Ok results, w) => main_loop env urls' no_save json results w
      | (Raise e, w) =>
          match logging (u "Chyba při zpracování " ++ url ++ u ": " ++ exn_msg e) w with
          | (_, w) =>
              main_loop env urls' no_save json
                (<[url := ErrorRecord (exn_msg e)]> results) w
          end
      end
  end.

Definition main (env : Env) (urls : list str) (no_save json : bool) (w : World)
    : gmap str entry * World :=
  main_loop env urls no_save json ∅ w.

(** ** Definitions used in the statements *)

(** A snapshot checked at a fixed time. *)
Definition snap (p a : option str) (d : list str) : Snapshot :=
  {| price := p; availability := a; details := d;
     checked_at := u "2024-01-01T00:00:00Z" |}.

(** The literal [kw] matches at the head of [s] (under IGNORECASE when [ic]). *)
Fixpoint lit_prefix (ic : bool) (kw s : str) : bool :=
  match kw, s with
  | [], _ => true
  | c :: kw', x :: s' => char_eq ic x c && lit_prefix ic kw' s'
  | _ :: _, [] => false
  end.

(** Group [i] is bound. *)
Definition bound (i : nat) (c : caps) : Prop := is_Some (group c i).

(** A pattern with group [i] on its spine binds it in every match: [spine i r]
    when each match of [r] goes through a group [i]. *)
Fixpoint spine (i : nat) (r : regex) : bool :=
  match r with
  | RGroup j a => Nat.eqb i j || spine i a
  | RSeq a b => spine i a || spine i b
  | RAlt a b => spine i a && spine i b
  | _ => false
  end.

(** Every match of [r] reads a decimal digit. *)
Fixpoint needs_digit (r : regex) : bool :=
  match r with
  | RSet (CClass false [IDigit]) => true
  | RSeq a b => needs_digit a || needs_digit b
  | RAlt a b => needs_digit a && needs_digit b
  | RRep (S _) _ a => needs_digit a
  | RGroup _ a => needs_digit a
  | _ => false
  end.

Definition digit_free (s : str) : Prop := Forall (fun c => is_digit c = false) s.

(** Follows the specification's words: the entries of [xs] not present in
    [ys], in the order of [xs]. *)
Definition entries_not_in (xs ys : list str) : list str :=
  List.filter (fun d => bool_decide (d ∉ ys)) xs.

(** What a comparison yields: the flag and the messages of its report. *)
Definition outcome (old_snapshot new_snapshot : Snapshot) : bool * list str :=
  let r := summarize_changes (Some old_snapshot) new_snapshot in
  (changed r, changes r).

(** The white-space characters. *)
Definition spaces : list char :=
  [9; 10; 11; 12; 13; 28; 29; 30; 31; 32; 133; 160; 5760;
   8192; 8193; 8194; 8195; 8196; 8197; 8198; 8199; 8200; 8201; 8202;
   8232; 8233; 8239; 8287; 12288].

(** No white-space character matches [c] under IGNORECASE. *)
Definition solid (c : char) : bool :=
  forallb (fun x => negb (char_eq true x c)) spaces.

(** The keyword begins and ends with such a character. *)
Definition edges_solid (kw : str) : bool :=
  match kw with
  | [] => false
  | c :: _ => solid c && solid (List.last kw c)
  end.

(** [w] is an occurrence of the keyword [kw] under IGNORECASE. *)
Definition occurrence (kw w : str) : Prop :=
  Forall2 (fun c x => char_eq true x c = true) kw w.

(** The string begins with a character that is not white space. *)
Definition starts_solid (s : str) : Prop :=
  match s with
  | x :: _ => is_space x = false
  | [] => False
  end.

(** The world after one reading of the clock. *)
Definition tick (w : World) : World :=
  {| page_state := page_state w; clock := clock w + 1; log := log w |}.

(** The snapshot [load_state] finds for [url]. *)
Definition stored (w : World) (url : str) : option Snapshot :=
  match page_state w !! url with
  | Some {| row_snapshot := Encoded s |} => Some s
  | _ => None
  end.

(** The assumption on the row of [url] under which a check is read off the
    model: there is none, or it holds a snapshot that [save_state] wrote, or
    its text does not decode. *)
Definition snapshot_or_corrupt (w : World) (url : str) : Prop :=
  match page_state w !! url with
  | None => True
  | Some r =>
      (exists s, row_snapshot r = Encoded s)
      \/ (exists raw, row_snapshot r = Unparseable raw)
  end.

(** The exception of line 264. *)
Definition bool_not_callable : exn :=
  Exn TypeError (u "'bool' object is not callable").

(** Sample inputs. *)
Definition li (s : string) : node := Tag (u "li") [] [Text (u s)].

(** [<h2>Podrobnosti</h2><ul><li>A</li><li>A</li><li></li></ul>] *)
Definition page_heading_list : node :=
  Tag (u "[document]") []
    [Tag (u "html") []
       [Tag (u "body") []
          [Tag (u "h2") [] [Text (u "Podrobnosti")];
           Tag (u "ul") [] [li "A"; li "A"; Tag (u "li") [] []]]]].

(** [<h2>Podrobnosti</h2><p>A  B</p><p>A B</p>] *)
Definition page_heading_siblings : node :=
  Tag (u "[document]") []
    [Tag (u "html") []
       [Tag (u "body") []
          [Tag (u "h2") [] [Text (u "Podrobnosti")];
           Tag (u "p") [] [Text (u "A  B")];
           Tag (u "p") [] [Text (u "A B")]]]].

(** [<p>Parametry</p><ul><li>A</li><li></li><li>A</li></ul>] *)
Definition page_spec_list : node :=
  Tag (u "[document]") []
    [Tag (u "html") []
       [Tag (u "body") []
          [Tag (u "p") [] [Text (u "Parametry")];
           Tag (u "ul") [] [li "A"; Tag (u "li") [] []; li "A"]]]].

(** [<ul><li>A</li><li></li><li>A</li><li>B  C</li><li>B C</li></ul>] *)
Definition page_items_only : node :=
  Tag (u "[document]") []
    [Tag (u "html") []
       [Tag (u "body") []
          [Tag (u "ul") [] [li "A"; Tag (u "li") [] []; li "A"; li "B  C"; li "B C"]]]].

(** A network where [http://b] times out and every other page is the same
    product page. *)
Definition sample_env : Env :=
  {| http_get := fun url =>
       if Str.eqb url (u "http://b")
       then Raise (Exn RequestException (u "timed out"))
       else Ok (u "<p>Cena: 99 Kč</p><p>Skladem</p>");
     lxml := fun _ =>
       Tag (u "[document]") []
         [Tag (u "html") []
            [Tag (u "body") []
               [Tag (u "p") [] [Text (u "Cena: 99 Kč")];
                Tag (u "p") [] [Text (u "Skladem")]]]];
     isoformat := of_N |}.

Definition empty_world : World := {| page_state := ∅; clock := 0; log := [] |}.

(** [" ".join(d.split())] *)
Definition collapse (d : str) : str := join (u " ") (split d).

(** A word of [split]: not empty, and without white space. *)
Definition word (w : str) : Prop :=
  w <> [] /\ Forall (fun c => is_space c = false) w.

(** The entry [main] records for the outcome of one check. *)
Definition entry_of (r : result ChangeReport) : entry :=
  match r with
  | Ok res => Report res
  | Raise e => ErrorRecord (exn_msg e)
  end.

(** The world once the check of [url] has been announced in the log. *)
Definition announced (url : str) (w : World) : World :=
  (logging (u "Kontrola: " ++ url) w).2.

(** The texts a pattern can match: concatenation for a sequence, either side
    for an alternative, between [lo] and [hi] pieces for a repetition. *)
Fixpoint denotes (ic : bool) (r : regex) (w : str) : Prop :=
  match r with
  | RSet cs => exists x, w = [x] /\ cset_mem ic cs x = true
  | REps => w = []
  | RSeq a b => exists w1 w2, w = w1 ++ w2 /\ denotes ic a w1 /\ denotes ic b w2
  | RAlt a b => denotes ic a w \/ denotes ic b w
  | RRep lo hi a =>
      exists ws, w = concat ws /\ Forall (denotes ic a) ws
                 /\ (lo <= length ws)%nat
                 /\ match hi with Some h => (length ws <= h)%nat | None => True end
  | RGroup _ a => denotes ic a w
  end.

(** The numbers of the groups of a pattern. *)
Fixpoint group_ids (r : regex) : list nat :=
  match r with
  | RSet _ | REps => []
  | RSeq a b | RAlt a b => group_ids a ++ group_ids b
  | RRep _ _ a => group_ids a
  | RGroup i a => i :: group_ids a
  end.

(** A run of decimal digits. *)
Definition all_digits (s : str) : Prop := Forall (fun c => is_digit c = true) s.

(** The node carries the structured-data price marker. *)
Definition price_marker (n : node) : bool :=
  sel_match (AttrEq (u "itemprop") (u "price")) n.

(** [<span itemprop="price">1 299 Kč</span><b class="price">999 Kč</b>] *)
Definition page_two_prices : node :=
  Tag (u "[document]") []
    [Tag (u "html") []
       [Tag (u "body") []
          [Tag (u "span") [(u "itemprop", u "price")] [Text (u "1 299 Kč")];
           Tag (u "b") [(u "class", u "price")] [Text (u "999 Kč")]]]].

(** [<meta itemprop="price"><p>Cena 999 Kč</p>] *)
Definition page_meta_without_content : node :=
  Tag (u "[document]") []
    [Tag (u "html") []
       [Tag (u "head") [] [Tag (u "meta") [(u "itemprop", u "price")] []];
        Tag (u "body") [] [Tag (u "p") [] [Text (u "Cena 999 Kč")]]]].

(** [<script>var parameters = 1;</script><ul><li>x</li><li>x</li></ul>] *)
Definition page_script_parameters : node :=
  Tag (u "[document]") []
    [Tag (u "html") []
       [Tag (u "head") []
          [Tag (u "script") [] [Special Script (u "var parameters = 1;")]];
        Tag (u "body") [] [Tag (u "ul") [] [li "x"; li "x"]]]].

(** [<p>zboží ſkladem</p>], with a long s. *)
Definition page_long_s : node :=
  Tag (u "[document]") []
    [Tag (u "html") [] [Tag (u "body") [] [Tag (u "p") [] [Text (u "zboží ſkladem")]]]].

(** The pattern cannot match at a text that begins with [h] ([None]: at the
    end of the text): its first character is refused. *)
Fixpoint blocked (ic : bool) (r : regex) (h : option char) : bool :=
  match r with
  | RSet cs => match h with Some x => negb (cset_mem ic cs x) | None => true end
  | REps => false
  | RSeq a _ => blocked ic a h
  | RAlt a b => blocked ic a h && blocked ic b h
  | RRep lo _ a => match lo with O => false | S _ => blocked ic a h end
  | RGroup _ a => blocked ic a h
  end.

(** * Properties *)

Example u_kc : u "Kč →" = [75; 269; 32; 8594].
Proof. reflexivity. Qed.

Example split_join_demo : join (u " ") (split (u "  a   b c ")) = u "a b c".
Proof. reflexivity. Qed.

Example of_N_demo : of_N 0 = u "0" /\ of_N 1234 = u "1234".
Proof. split; reflexivity. Qed.

Example float_parse_demo :
  Float.of_str (u "0.1") = Ok (S754_finite false 7205759403792794 (-56))
  /\ Float.of_str (u " -1_0.5e1 ") = Ok (S754_finite true 7388718138654720 (-46))
  /\ Float.of_str (u "1.2.3") = Raise Float.value_error
  /\ Float.of_str [] = Raise Float.value_error
  /\ Float.of_str (u "1e400") = Ok (S754_infinity false)
  /\ Float.of_str (u "-Infinity") = Ok (S754_infinity true).
Proof. vm_compute. repeat split. Qed.

Example normalize_price_demo :
  normalize_price (Some (u "1 234,50 Kč")) = Ok (Some (u "1234.50"))
  /\ normalize_price (Some (u "call us")) = Ok (Some (u "call us"))
  /\ normalize_price (Some (u "1234,50")) = Ok (Some (u "123.00"))
  /\ normalize_price (Some (u "   ")) = Ok (Some [])
  /\ normalize_price (Some (u "cena od 99 Kč")) = Ok (Some (u "99.00"))
  /\ normalize_price (Some (u "€ 1 000.005")) = Ok (Some (u "1000.00"))
  /\ search false price_pattern (u "x 1 234,5 CZK") =
       Some {| group0 := u " 1 234,5 CZK";
               groups := [(3%nat, u "CZK"); (2%nat, u "1 234,5")] |}
  /\ price_of_candidate (u "1.2.3") = Ok (Some (u "1.2.3")).
Proof. vm_compute. repeat split. Qed.

(** Digits of another script are digits to [\d] and to [float]; the
    separators U+001C to U+001F are white space to [strip], not to [float]. *)
Example unicode_digits_demo :
  normalize_price (Some [1633; 1634; 1635]) = Ok (Some (u "123.00"))
  /\ Float.of_str [1633; 1632; 1632] = Float.of_str (u "100")
  /\ Float.of_str [160; 2407; 46; 2411; 12288] = Float.of_str (u "1.5")
  /\ Float.of_str (28 :: u "100.00") = Raise Float.value_error
  /\ strip (28 :: u "100.00") = u "100.00"
  /\ Float.of_str (u "1O") = Raise Float.value_error.
Proof. vm_compute. repeat split. Qed.

(** IGNORECASE: the long s and the dotless i match [s] and [i], the Kelvin
    sign matches [k]; a character without case only matches itself. *)
Example ignorecase_demo :
  char_eq true 383 (115) = true /\ char_eq true 115 83 = true
  /\ char_eq true 305 73 = true /\ char_eq true 8490 107 = true
  /\ char_eq true 205 237 = true /\ char_eq true 32 160 = false
  /\ char_eq false 115 83 = false
  /\ is_Some (search true (RLit (u "Skladem")) (u "zboží ſKLADEM")).
Proof. vm_compute. repeat split. eauto. Qed.

Example summarize_changes_demo :
  changes (summarize_changes
     (Some (snap (Some (u "100.00")) None [u "A"; u "B"]))
     (snap (Some (u "150.00")) (Some (u "Skladem")) [u "B"; u "C"]))
  = [u "Cena: 100.00 → 150.00 (+50.00%)";
     u "Dostupnost: None → Skladem";
     u "Přidáno v podrobnostech: C";
     u "Odebráno v podrobnostech: A"].
Proof. vm_compute. reflexivity. Qed.
(** ** The matcher *)

(** The classes [\d] and [\s] do not depend on the IGNORECASE flag. *)
Lemma cset_mem_digit ic x : cset_mem ic CDigit x = is_digit x.
Proof.
  unfold CDigit, cset_mem. cbn [class_cased existsb]. rewrite andb_false_r.
  cbn. apply orb_false_r.
Qed.

Lemma cset_mem_space ic x : cset_mem ic CSpace x = is_space x.
Proof.
  unfold CSpace, cset_mem. cbn [class_cased existsb]. rewrite andb_false_r.
  cbn. apply orb_false_r.
Qed.

Section MatcherFacts.
Context {A : Type}.
Variable ic : bool.

(** A property of the remaining input and of the groups that reading a
    character and binding a group preserve holds wherever the continuation
    is entered. *)
Variable Inv : str -> caps -> Prop.
Hypothesis Inv_tail : forall x s c, Inv (x :: s) c -> Inv s c.
Hypothesis Inv_bind : forall s c i v, Inv s c -> Inv s ((i, v) :: c).

Lemma rep_inv (step : str -> caps -> @kont A -> option A) :
  (forall s c k x, step s c k = Some x -> Inv s c ->
     exists s' c', Inv s' c' /\ k s' c' = Some x) ->
  forall n lo s c k x,
    rep step lo n s c k = Some x -> Inv s c ->
    exists s' c', Inv s' c' /\ k s' c' = Some x.
Proof.
  intros Hstep n. induction n as [|n IH]; intros lo s c k x H HI; simpl in H.
  - destruct lo; [|discriminate]. exists s, c. auto.
  - destruct (step s c _) as [r|] eqn:E.
    + inversion H; subst r.
      apply Hstep in E; [|assumption].
      destruct E as (s' & c' & HI' & E). eapply IH; eauto.
    + destruct lo; [|discriminate]. exists s, c. auto.
Qed.

Lemma mt_inv r : forall s c (k : @kont A) x,
  mt ic r s c k = Some x -> Inv s c ->
  exists s' c', Inv s' c' /\ k s' c' = Some x.
Proof.
  induction r as [cs| |a IHa b IHb|a IHa b IHb|lo hi a IHa|i a IHa];
    intros s c k x H HI; simpl in H.
  - destruct s as [|y s]; [discriminate|].
    destruct (cset_mem ic cs y); [|discriminate].
    exists s, c. eauto.
  - exists s, c. auto.
  - apply IHa in H; [|assumption]. destruct H as (s' & c' & HI' & H).
    eapply IHb; eauto.
  - destruct (mt ic a s c k) eqn:E.
    + inversion H; subst. eapply IHa; eauto.
    + eapply IHb; eauto.
  - eapply rep_inv; eauto.
  - apply IHa in H; [|assumption]. destruct H as (s' & c' & HI' & H).
    exists s', ((i, consumed s s') :: c'). split; [|assumption].
    apply Inv_bind. assumption.
Qed.
End MatcherFacts.

(** What [search] returns is a match at some position of the text. *)
Lemma search_Some ic r s m :
  search ic r s = Some m -> exists p t, s = p ++ t /\ match_at ic r t = Some m.
Proof.
  induction s as [|x s IH]; simpl; intros H.
  - destruct (match_at ic r []) eqn:E; [|discriminate].
    inversion H; subst. exists [], []. auto.
  - destruct (match_at ic r (x :: s)) eqn:E.
    + inversion H; subst. exists [], (x :: s). auto.
    + destruct (IH H) as (p & t & -> & Ht). exists (x :: p), t. auto.
Qed.

(** A match at any position makes [search] succeed. *)
Lemma search_is_Some ic r p t :
  is_Some (match_at ic r t) -> is_Some (search ic r (p ++ t)).
Proof.
  intros Ht. induction p as [|x p IH]; simpl.
  - destruct t; simpl; destruct (match_at ic r _); eauto.
    all: destruct Ht; discriminate.
  - destruct (match_at ic r (x :: p ++ t)); eauto.
Qed.

Lemma search_None ic r p t :
  search ic r (p ++ t) = None -> match_at ic r t = None.
Proof.
  intros H. destruct (match_at ic r t) eqn:E; [|reflexivity].
  destruct (search_is_Some ic r p t) as [m Hm]; [rewrite E; eauto|congruence].
Qed.

Lemma bound_bind i c j v : bound i c -> bound i ((j, v) :: c).
Proof. unfold bound; simpl. destruct (Nat.eqb i j); eauto. Qed.

Lemma bound_here i c v : bound i ((i, v) :: c).
Proof. unfold bound; simpl. rewrite Nat.eqb_refl. eauto. Qed.

Lemma mt_spine {A} ic i r : spine i r = true ->
  forall s c (k : @kont A) x,
    mt ic r s c k = Some x -> exists s' c', bound i c' /\ k s' c' = Some x.
Proof.
  induction r as [cs| |a IHa b IHb|a IHa b IHb|lo hi a IHa|j a IHa];
    simpl; intros Hsp s c k x H; try discriminate.
  - apply orb_true_iff in Hsp as [Ha|Hb].
    + destruct (IHa Ha _ _ _ _ H) as (s1 & c1 & Hb1 & H1).
      eapply (mt_inv ic (fun _ c => bound i c)) in H1; eauto using bound_bind.
    + eapply (mt_inv ic (fun _ _ => True)) in H; eauto.
      destruct H as (s1 & c1 & _ & H1). eauto.
  - apply andb_true_iff in Hsp as [Ha Hb].
    destruct (mt ic a s c k) eqn:E.
    + inversion H; subst. eauto.
    + eauto.
  - apply orb_true_iff in Hsp as [Hj|Ha].
    + apply Nat.eqb_eq in Hj; subst j.
      eapply (mt_inv ic (fun _ _ => True)) in H; eauto.
      destruct H as (s1 & c1 & _ & H1).
      exists s1, ((i, consumed s s1) :: c1). split; [apply bound_here|assumption].
    + destruct (IHa Ha _ _ _ _ H) as (s1 & c1 & Hb1 & H1).
      exists s1, ((j, consumed s s1) :: c1). split; [apply bound_bind|]; assumption.
Qed.

Lemma search_group ic i r s m :
  spine i r = true -> search ic r s = Some m -> exists g, group_of m i = Ok g.
Proof.
  intros Hsp H. apply search_Some in H as (p & t & _ & H).
  unfold match_at in H. apply (mt_spine ic i r Hsp) in H.
  destruct H as (s' & c' & [g Hg] & H). inversion H; subst.
  exists g. unfold group_of; simpl. rewrite Hg. reflexivity.
Qed.

Lemma price_of_candidate_ok num : exists r, price_of_candidate num = Ok r.
Proof.
  unfold price_of_candidate. destruct (Float.of_str (num_norm num)); simpl; eauto.
Qed.

(** The normalizer returns on every input. *)
Lemma normalize_price_total text : exists r, normalize_price text = Ok r.
Proof.
  destruct text as [[|x t]|]; simpl; eauto.
  set (s := strip (x :: t)).
  destruct (search false price_pattern s) as [m|] eqn:E.
  - destruct (search_group false 2 price_pattern s m eq_refl E) as [g ->].
    simpl. apply price_of_candidate_ok.
  - destruct (search false loose_number_pattern s) as [m|] eqn:E2; eauto.
    destruct (search_group false 1 loose_number_pattern s m eq_refl E2) as [g ->].
    simpl. apply price_of_candidate_ok.
Qed.

Lemma digit_free_tail x s : digit_free (x :: s) -> digit_free s.
Proof. intros H. inversion H; assumption. Qed.

(** A pattern that has to read a digit finds none in a text without digits. *)
Lemma mt_needs_digit {A} ic r : needs_digit r = true ->
  forall s c (k : @kont A), digit_free s -> mt ic r s c k = None.
Proof.
  induction r as [cs| |a IHa b IHb|a IHa b IHb|lo hi a IHa|j a IHa];
    simpl; intros Hn s c k Hs; try discriminate.
  - destruct cs as [| |[] [|[] []]]; try discriminate.
    destruct s as [|y s]; [reflexivity|].
    inversion Hs as [|? ? Hy _]; subst.
    change (CClass false [IDigit]) with CDigit. rewrite cset_mem_digit, Hy.
    reflexivity.
  - apply orb_true_iff in Hn as [Ha|Hb]; [auto|].
    destruct (mt ic a s c _) as [x|] eqn:E; [|reflexivity].
    apply (mt_inv ic (fun s _ => digit_free s)) in E;
      eauto using digit_free_tail.
    destruct E as (s' & c' & Hs' & E). rewrite IHb in E by assumption.
    discriminate.
  - apply andb_true_iff in Hn as [Ha Hb]. rewrite IHa, IHb by assumption.
    reflexivity.
  - destruct lo as [|lo]; [discriminate|].
    destruct (match hi with Some h => h | None => length s end) as [|n]; simpl.
    + reflexivity.
    + rewrite IHa by assumption. reflexivity.
  - auto.
Qed.

Lemma search_needs_digit ic r s :
  needs_digit r = true -> digit_free s -> search ic r s = None.
Proof.
  intros Hn. induction s as [|x s IH]; intros Hs; simpl; unfold match_at;
    rewrite mt_needs_digit by assumption; [reflexivity|].
  apply IH. eapply digit_free_tail; eassumption.
Qed.

Lemma digit_free_lstrip s : digit_free s -> digit_free (lstrip s).
Proof.
  induction s as [|x s IH]; simpl; intros H; [assumption|].
  destruct (is_space x); [|assumption]. apply IH. inversion H; assumption.
Qed.

Lemma digit_free_rev s : digit_free s -> digit_free (rev s).
Proof. apply List.Forall_rev. Qed.

Lemma digit_free_strip s : digit_free s -> digit_free (strip s).
Proof.
  intros H. unfold strip, rstrip.
  auto using digit_free_rev, digit_free_lstrip.
Qed.

(** C4. [normalize_price] on the specification's test vectors, on every text
    without a numeric pattern (no decimal digit: the trimmed text comes back
    unchanged), and on every input at all (it returns, it never raises); when
    the normalized candidate does not parse as a float, lines 97-102 return
    the normalized candidate itself. *)
Theorem normalize_price_spec :
  normalize_price (Some (u "1 234,50 Kč")) = Ok (Some (u "1234.50"))
  /\ normalize_price None = Ok None
  /\ normalize_price (Some []) = Ok None
  /\ normalize_price (Some (u "call us")) = Ok (Some (u "call us"))
  /\ (forall text, text <> [] -> digit_free text ->
        normalize_price (Some text) = Ok (Some (strip text)))
  /\ (forall text, exists r, normalize_price text = Ok r)
  /\ (forall num e, Float.of_str (num_norm num) = Raise e ->
        price_of_candidate num = Ok (Some (num_norm num))).
Proof.
  split; [vm_compute; reflexivity|].
  split; [reflexivity|].
  split; [reflexivity|].
  split; [vm_compute; reflexivity|].
  split; [|split].
  - intros [|x t] Hne Hd; [congruence|]. simpl.
    rewrite !search_needs_digit by (reflexivity || apply digit_free_strip, Hd).
    reflexivity.
  - apply normalize_price_total.
  - intros num e H. unfold price_of_candidate. rewrite H. reflexivity.
Qed.

Lemma normalize_price_spec_witness :
  normalize_price (Some (u "call us")) = Ok (Some (strip (u "call us")))
  /\ price_of_candidate (u "1.2.3") = Ok (Some (num_norm (u "1.2.3"))).
Proof.
  destruct normalize_price_spec as (_ & _ & _ & _ & H5 & _ & H7). split.
  - apply H5; [discriminate|]. unfold digit_free. repeat constructor.
  - apply (H7 _ Float.value_error). vm_compute. reflexivity.
Defined.

(** ** The differ *)

Lemma eqb_eq a b : Str.eqb a b = true <-> a = b.
Proof. unfold Str.eqb. apply bool_decide_eq_true. Qed.

Lemma eqb_refl a : Str.eqb a a = true.
Proof. apply eqb_eq. reflexivity. Qed.

Lemma eqb_neq a b : a <> b -> Str.eqb a b = false.
Proof. intros H. unfold Str.eqb. apply bool_decide_eq_false. assumption. Qed.

Lemma mem_elem_of d l : mem d l = true <-> d ∈ l.
Proof.
  unfold mem. rewrite List.existsb_exists, list_elem_of_In. split.
  - intros (x & Hx & E). apply eqb_eq in E. subst. assumption.
  - intros H. exists d. split; [assumption|apply eqb_refl].
Qed.

Lemma mem_not_elem_of d l : negb (mem d l) = bool_decide (d ∉ l).
Proof.
  destruct (mem d l) eqn:E; simpl; symmetry.
  - apply bool_decide_eq_false. intros H. apply H, mem_elem_of, E.
  - apply bool_decide_eq_true. intros H. apply mem_elem_of in H. congruence.
Qed.

Lemma added_spec old_det new_det : added old_det new_det = entries_not_in new_det old_det.
Proof.
  unfold added, entries_not_in. apply List.filter_ext. intros d.
  apply mem_not_elem_of.
Qed.

Lemma removed_spec old_det new_det :
  removed old_det new_det = entries_not_in old_det new_det.
Proof.
  unfold removed, entries_not_in. apply List.filter_ext. intros d.
  apply mem_not_elem_of.
Qed.

Lemma entries_not_in_self l : entries_not_in l l = [].
Proof.
  unfold entries_not_in.
  assert (H : forall xs, (forall d, In d xs -> d ∈ l) ->
            List.filter (fun d => bool_decide (d ∉ l)) xs = []).
  { induction xs as [|x xs IH]; simpl; intros Hin; [reflexivity|].
    rewrite bool_decide_eq_false_2 by (intros Hn; apply Hn, Hin; auto).
    apply IH. auto. }
  apply H. intros d Hd. apply list_elem_of_In. assumption.
Qed.

Lemma compare_details_same d s : compare_details d d s = s.
Proof.
  unfold compare_details. rewrite added_spec, removed_spec, entries_not_in_self.
  reflexivity.
Qed.

Lemma compare_price_same p q s :
  or_empty p = or_empty q -> compare_price p q s = s.
Proof. intros H. unfold compare_price. rewrite H, eqb_refl. reflexivity. Qed.

Lemma compare_availability_same p q s :
  or_empty p = or_empty q -> compare_availability p q s = s.
Proof. intros H. unfold compare_availability. rewrite H, eqb_refl. reflexivity. Qed.

Lemma with_percentage_None_l msg q : with_percentage msg None q = msg.
Proof.
  unfold with_percentage. destruct q as [s|]; simpl; [|reflexivity].
  destruct (Float.of_str s); reflexivity.
Qed.

Lemma with_percentage_None_r msg p : with_percentage msg p None = msg.
Proof.
  unfold with_percentage. destruct p as [s|]; simpl; [|reflexivity].
  destruct (Float.of_str s); reflexivity.
Qed.

(** Two snapshots with the same three fields compare as unchanged, whatever
    their [checked_at]. *)
Lemma summarize_changes_same_fields (o n : Snapshot) :
  price o = price n -> availability o = availability n -> details o = details n ->
  outcome o n = (false, []).
Proof.
  intros Hp Ha Hd. unfold outcome, summarize_changes. simpl.
  rewrite Hp, Ha, Hd, compare_price_same, compare_availability_same,
    compare_details_same by reflexivity.
  reflexivity.
Qed.

(** C6. Against an absent prior snapshot the differ answers [changed = true]
    with the single message that no prior record existed, whatever the new
    snapshot holds. *)
Theorem first_run_report (new_snapshot : Snapshot) :
  summarize_changes None new_snapshot =
    {| changed := true; changes := [no_prior_record];
       old := None; new := new_snapshot |}
  /\ length (changes (summarize_changes None new_snapshot)) = 1%nat.
Proof. split; reflexivity. Qed.

(** The percentage, when there is one, comes after the message. *)
Lemma with_percentage_suffix msg p q :
  exists suffix, with_percentage msg p q = msg ++ suffix.
Proof.
  assert (N : exists suffix, msg = msg ++ suffix)
    by (exists []; rewrite app_nil_r; reflexivity).
  unfold with_percentage, float_opt.
  destruct p as [sp|]; simpl.
  - destruct (Float.of_str sp) as [a|]; simpl; [|exact N].
    destruct q as [sq|]; simpl; [|exact N].
    destruct (Float.of_str sq) as [b|]; simpl; [|exact N].
    destruct (Float.is_zero a) eqn:Z; simpl; [exact N|].
    unfold Float.div. rewrite Z. simpl. eauto.
  - destruct q as [sq|]; simpl; [|exact N].
    destruct (Float.of_str sq); simpl; exact N.
Qed.

(** Each comparison adds its messages to those already there. *)
Lemma compare_availability_app a a' s :
  (compare_availability a a' s).2 = s.2 ++ (compare_availability a a' (false, [])).2.
Proof.
  unfold compare_availability. destruct (negb _); simpl; [reflexivity|].
  rewrite app_nil_r. reflexivity.
Qed.

Lemma compare_details_app d d' s :
  (compare_details d d' s).2 = s.2 ++ (compare_details d d' (false, [])).2.
Proof.
  unfold compare_details. destruct (nonempty (added d d')), (nonempty (removed d d'));
    simpl; rewrite <- ?app_assoc, ?app_nil_r; reflexivity.
Qed.

(** The messages of a report: those on the price, then those on the
    availability, then those on the details, each part a function of its own
    field only. *)
Lemma changes_by_field (o n : Snapshot) :
  changes (summarize_changes (Some o) n) =
    (compare_price (price o) (price n) (false, [])).2
    ++ (compare_availability (availability o) (availability n) (false, [])).2
    ++ (compare_details (details o) (details n) (false, [])).2.
Proof.
  unfold summarize_changes; simpl.
  rewrite compare_details_app, compare_availability_app, <- app_assoc. reflexivity.
Qed.

Lemma summarize_changes_flag (o n : Snapshot) :
  changed (summarize_changes (Some o) n) = nonempty (changes (summarize_changes (Some o) n)).
Proof.
  unfold summarize_changes; simpl.
  set (s1 := compare_price _ _ _).
  assert (H1 : s1.1 = nonempty s1.2).
  { unfold s1, compare_price. destruct (negb _); reflexivity. }
  set (s2 := compare_availability _ _ s1).
  assert (H2 : s2.1 = nonempty s2.2).
  { unfold s2, compare_availability. destruct (negb _); [|exact H1].
    simpl. destruct (s1.2); reflexivity. }
  unfold compare_details.
  destruct (nonempty (added _ _)), (nonempty (removed _ _)); simpl; try exact H2.
  - destruct (s2.2 ++ _); reflexivity.
  - destruct (s2.2); reflexivity.
  - destruct (s2.2); reflexivity.
Qed.

(** C5. Price and availability are each compared with null and the empty
    string taken as equal, whatever the other fields hold: the messages of a
    report are those on the price, those on the availability and those on the
    details, in this order, and the part of a field is empty when the field
    is null on one side and null or empty on the other, [old → new] with
    [None] for the null side when it goes from null to a value or back, and
    for two values empty exactly when they are equal.  The flag is set
    exactly when there is a message. *)
Theorem differ_null_equivalence (o n : Snapshot) :
  let r := summarize_changes (Some o) n in
  let P := (compare_price (price o) (price n) (false, [])).2 in
  let A := (compare_availability (availability o) (availability n) (false, [])).2 in
  let D := (compare_details (details o) (details n) (false, [])).2 in
  changes r = P ++ A ++ D
  /\ changed r = nonempty (P ++ A ++ D)
  /\ match availability o, availability n with
     | None, None | None, Some [] | Some [], None => A = []
     | None, Some v => A = [u "Dostupnost: None → " ++ v]
     | Some v, None => A = [u "Dostupnost: " ++ v ++ u " → None"]
     | Some v, Some v' =>
         A = if bool_decide (v = v') then []
             else [u "Dostupnost: " ++ v ++ u " → " ++ v']
     end
  /\ match price o, price n with
     | None, None | None, Some [] | Some [], None => P = []
     | None, Some v => P = [u "Cena: None → " ++ v]
     | Some v, None => P = [u "Cena: " ++ v ++ u " → None"]
     | Some v, Some v' =>
         if bool_decide (v = v') then P = []
         else exists suffix, P = [u "Cena: " ++ v ++ u " → " ++ v' ++ suffix]
     end.
Proof.
  intros r P A D. split; [apply changes_by_field|].
  split; [unfold r; rewrite summarize_changes_flag, changes_by_field; reflexivity|].
  split.
  - unfold A, compare_availability.
    destruct (availability o) as [[|x v]|], (availability n) as [[|x' v']|];
      simpl or_empty; unfold Str.eqb;
      rewrite ?bool_decide_eq_true_2, ?(bool_decide_eq_false_2 ([] = _)),
        ?(bool_decide_eq_false_2 (_ :: _ = [])) by (reflexivity || discriminate);
      try reflexivity.
    destruct (bool_decide (x :: v = x' :: v')); reflexivity.
  - unfold P, compare_price.
    destruct (price o) as [[|x v]|], (price n) as [[|x' v']|];
      simpl or_empty; unfold Str.eqb;
      rewrite ?bool_decide_eq_true_2, ?(bool_decide_eq_false_2 ([] = _)),
        ?(bool_decide_eq_false_2 (_ :: _ = [])) by (reflexivity || discriminate);
      simpl negb; cbv iota;
      rewrite ?with_percentage_None_l, ?with_percentage_None_r;
      try reflexivity.
    all: try (destruct (bool_decide (x :: v = x' :: v')); [reflexivity|]).
    all: simpl negb; cbv iota; unfold report; cbn [snd fmt].
    all: match goal with
         | |- context [with_percentage ?m ?p ?q] =>
             destruct (with_percentage_suffix m p q) as [sfx ->]
         end.
    all: exists sfx; rewrite <- ?app_assoc; reflexivity.
Qed.
Lemma differ_null_equivalence_witness :
  changes (summarize_changes
             (Some (snap (Some (u "100.00")) None [u "A"]))
             (snap (Some (u "150.00")) (Some []) [u "A"]))
  = [u "Cena: 100.00 → 150.00 (+50.00%)"]
  /\ changes (summarize_changes
                (Some (snap None None [u "A"]))
                (snap (Some []) (Some (u "Skladem")) [u "B"]))
     = [u "Dostupnost: None → Skladem";
        u "Přidáno v podrobnostech: B"; u "Odebráno v podrobnostech: A"].
Proof.
  split.
  - destruct (differ_null_equivalence
                (snap (Some (u "100.00")) None [u "A"])
                (snap (Some (u "150.00")) (Some []) [u "A"])) as (E & _ & HA & _).
    cbn [availability price details snap] in E, HA. rewrite E, HA.
    vm_compute. reflexivity.
  - destruct (differ_null_equivalence
                (snap None None [u "A"])
                (snap (Some []) (Some (u "Skladem")) [u "B"])) as (E & _ & HA & HP).
    change (u "Skladem") with [83; 107; 108; 97; 100; 101; 109] in E, HA |- *.
    cbn [availability price details snap] in E, HA, HP.
    rewrite E, HA, HP. vm_compute. reflexivity.
Defined.

(** C7. The details are compared both ways with exact string equality:
    [added] holds the entries of the new list absent from the old one, in the
    new list's order, [removed] the entries of the old list absent from the
    new one, in the old list's order; each, when not empty, gives one message
    that lists its first 10 entries at most, joined by [; ], after the
    messages on price and availability.  For old [A, B] and new [B, C] they
    are [C] and [A]. *)
Theorem details_diff (o n : Snapshot) :
  let a := added (details o) (details n) in
  let r := removed (details o) (details n) in
  a = entries_not_in (details n) (details o)
  /\ r = entries_not_in (details o) (details n)
  /\ changes (summarize_changes (Some o) n) =
       (compare_availability (availability o) (availability n)
          (compare_price (price o) (price n) (false, []))).2
       ++ (if nonempty a
           then [u "Přidáno v podrobnostech: " ++ join (u "; ") (take 10 a)]
           else [])
       ++ (if nonempty r
           then [u "Odebráno v podrobnostech: " ++ join (u "; ") (take 10 r)]
           else [])
  /\ added [u "A"; u "B"] [u "B"; u "C"] = [u "C"]
  /\ removed [u "A"; u "B"] [u "B"; u "C"] = [u "A"].
Proof.
  intros a r. split; [apply added_spec|]. split; [apply removed_spec|].
  split; [|split; reflexivity].
  unfold summarize_changes, compare_details; simpl. fold a r.
  destruct (nonempty a), (nonempty r); unfold report; simpl;
    rewrite <- ?app_assoc, ?app_nil_r; reflexivity.
Qed.

Lemma compare_price_head op np s :
  op <> np ->
  compare_price (Some op) (Some np) s =
    report (with_percentage (u "Cena: " ++ op ++ u " → " ++ np) (Some op) (Some np)) s.
Proof.
  intros H. unfold compare_price; simpl or_empty. rewrite eqb_neq by assumption.
  reflexivity.
Qed.

Lemma compare_availability_fst p q s : s.1 = true -> (compare_availability p q s).1 = true.
Proof. unfold compare_availability. destruct (negb _); auto. Qed.

Lemma compare_details_fst p q s : s.1 = true -> (compare_details p q s).1 = true.
Proof. unfold compare_details. repeat destruct (nonempty _); auto. Qed.

Lemma compare_availability_snd p q s :
  exists rest, (compare_availability p q s).2 = s.2 ++ rest.
Proof.
  unfold compare_availability. destruct (negb _); simpl; eauto.
  exists []. rewrite app_nil_r. reflexivity.
Qed.

Lemma compare_details_snd p q s :
  exists rest, (compare_details p q s).2 = s.2 ++ rest.
Proof.
  unfold compare_details. repeat destruct (nonempty _); simpl; eauto.
  - rewrite <- app_assoc. eauto.
  - exists []. rewrite app_nil_r. reflexivity.
Qed.

(** A price message, once reported, heads the report. *)
Lemma price_message_first (o n : Snapshot) op np :
  price o = Some op -> price n = Some np -> op <> np ->
  exists rest,
    outcome o n =
      (true, with_percentage (u "Cena: " ++ op ++ u " → " ++ np) (Some op) (Some np)
             :: rest).
Proof.
  intros Ho Hn Hne. unfold outcome, summarize_changes; simpl.
  rewrite Ho, Hn, compare_price_head by assumption.
  set (s1 := report _ _).
  destruct (compare_availability_snd (availability o) (availability n) s1) as [r1 E1].
  set (s2 := compare_availability _ _ _) in *.
  destruct (compare_details_snd (details o) (details n) s2) as [r2 E2].
  exists (r1 ++ r2).
  rewrite compare_details_fst, E2, E1
    by (apply compare_availability_fst; reflexivity).
  simpl. reflexivity.
Qed.

(** C8. A reported price change whose two prices parse as numbers [a] and
    [b], [a] not zero, carries [(b - a) / a * 100] printed with a sign and two
    decimals; from 100.00 to 150.00 that is [+50.00%].  When a price does not
    parse the message comes without the suffix, and the comparison goes on. *)
Theorem price_change_percentage :
  (forall (o n : Snapshot) op np a b,
     price o = Some op -> price n = Some np -> op <> np ->
     Float.of_str op = Ok a -> Float.of_str np = Ok b -> Float.is_zero a = false ->
     exists rest,
       outcome o n =
         (true,
          (u "Cena: " ++ op ++ u " → " ++ np ++ u " ("
           ++ Float.format_2f true
                (Float.mul (SFdiv Float.prec Float.emax (Float.sub b a) a)
                           (Float.of_Z 100))
           ++ u "%)") :: rest))
  /\ (forall (o n : Snapshot) op np,
        price o = Some op -> price n = Some np -> op <> np ->
        (exists e, Float.of_str op = Raise e) \/ (exists e, Float.of_str np = Raise e) ->
        exists rest,
          outcome o n = (true, (u "Cena: " ++ op ++ u " → " ++ np) :: rest))
  /\ (forall (o n : Snapshot),
        price o = Some (u "100.00") -> price n = Some (u "150.00") ->
        exists rest,
          outcome o n = (true, u "Cena: 100.00 → 150.00 (+50.00%)" :: rest)).
Proof.
  split; [|split].
  - intros o n op np a b Ho Hn Hne Ha Hb Hz.
    destruct (price_message_first o n op np Ho Hn Hne) as [rest ->].
    exists rest. do 2 f_equal.
    unfold with_percentage, float_opt. rewrite Ha, Hb. simpl.
    rewrite Hz. simpl. unfold Float.div. rewrite Hz. simpl.
    rewrite <- !app_assoc. reflexivity.
  - intros o n op np Ho Hn Hne Hfail.
    destruct (price_message_first o n op np Ho Hn Hne) as [rest ->].
    exists rest. do 2 f_equal.
    unfold with_percentage, float_opt.
    destruct Hfail as [[e He]|[e He]]; rewrite He; simpl.
    + reflexivity.
    + destruct (Float.of_str op); reflexivity.
  - intros o n Ho Hn.
    destruct (price_message_first o n _ _ Ho Hn) as [rest ->]; [discriminate|].
    exists rest. do 2 f_equal.
Qed.

Lemma price_change_percentage_witness :
  (exists rest,
     outcome (snap (Some (u "100.00")) None []) (snap (Some (u "150.00")) None [])
     = (true, u "Cena: 100.00 → 150.00 (+50.00%)" :: rest))
  /\ (exists rest,
        outcome (snap (Some (u "na dotaz")) None []) (snap (Some (u "150.00")) None [])
        = (true, u "Cena: na dotaz → 150.00" :: rest))
  /\ (exists rest,
        outcome (snap (Some (u "80.00")) None []) (snap (Some (u "60.00")) None [])
        = (true, u "Cena: 80.00 → 60.00 (-25.00%)" :: rest)).
Proof.
  destruct price_change_percentage as (H1 & H2 & H3). split; [|split].
  - apply H3; reflexivity.
  - apply (H2 _ _ (u "na dotaz") (u "150.00")); try reflexivity; [discriminate|].
    left. exists Float.value_error. vm_compute. reflexivity.
  - apply (H1 _ _ (u "80.00") (u "60.00")
             (S754_finite false 5629499534213120 (-46))
             (S754_finite false 8444249301319680 (-47)));
      try reflexivity; [discriminate|vm_compute; reflexivity..].
Defined.

(** ** The availability keywords *)

Lemma is_space_spaces x : is_space x = true <-> In x spaces.
Proof.
  unfold is_space, spaces. cbn [In].
  rewrite !orb_true_iff, !andb_true_iff, !N.leb_le, !N.eqb_eq. lia.
Qed.

Lemma solid_char_eq x c : solid c = true -> char_eq true x c = true -> is_space x = false.
Proof.
  unfold solid. rewrite List.forallb_forall. intros Hc Hx.
  destruct (is_space x) eqn:E; [|reflexivity].
  apply is_space_spaces, Hc in E. rewrite Hx in E. discriminate.
Qed.

Lemma lit_prefix_occurrence kw s :
  lit_prefix true kw s = true <-> exists w r, s = w ++ r /\ occurrence kw w.
Proof.
  revert s. induction kw as [|c kw IH]; intros s; simpl.
  - split; [|reflexivity]. intros _. exists [], s. split; [reflexivity|constructor].
  - destruct s as [|x s].
    + split; [discriminate|]. intros (w & r & E & H). inversion H; subst. discriminate.
    + rewrite andb_true_iff, IH. split.
      * intros (Hx & w & r & -> & Hw). exists (x :: w), r.
        split; [reflexivity|constructor; assumption].
      * intros (w & r & E & H). inversion H as [|? y ? w' Hy Hw']; subst.
        inversion E; subst. eauto.
Qed.

(** A literal either fails or hands the text after it to the continuation. *)
Lemma mt_lit {A} ic kw : forall s c (k : @kont A),
  mt ic (RLit kw) s c k =
    if lit_prefix ic kw s then k (drop (length kw) s) c else None.
Proof.
  induction kw as [|y kw IH]; intros s c k; simpl; [reflexivity|].
  destruct s as [|x s]; [reflexivity|]. unfold cset_mem.
  destruct (char_eq ic x y); simpl; [apply IH|reflexivity].
Qed.

(** A repetition that may stop at once succeeds where its continuation does. *)
Lemma rep_zero {A} (step : str -> caps -> @kont A -> option A) n s c k :
  is_Some (k s c) -> is_Some (rep step 0 n s c k).
Proof.
  intros H. destruct n; simpl; [assumption|]. destruct (step s c _); eauto.
Qed.

Lemma mt_seq {A} ic a b s c (k : @kont A) :
  mt ic (RSeq a b) s c k = mt ic a s c (fun s' c' => mt ic b s' c' k).
Proof. reflexivity. Qed.

Lemma mt_rep_bounded {A} ic lo h a s c (k : @kont A) :
  mt ic (RRep lo (Some h) a) s c k = rep (mt ic a) lo h s c k.
Proof. reflexivity. Qed.

Lemma context_match_at kw t :
  lit_prefix true kw t = true -> is_Some (match_at true (context_pattern kw) t).
Proof.
  intros H. unfold match_at, context_pattern.
  rewrite mt_seq, mt_rep_bounded. apply rep_zero.
  rewrite mt_seq, mt_lit, H, mt_rep_bounded. apply rep_zero. eauto.
Qed.

Lemma search_lit_Some ic kw text :
  is_Some (search ic (RLit kw) text) <->
  exists p t, text = p ++ t /\ lit_prefix ic kw t = true.
Proof.
  split.
  - intros [m H]. apply search_Some in H as (p & t & -> & H).
    exists p, t. split; [reflexivity|].
    unfold match_at in H. rewrite mt_lit in H.
    destruct (lit_prefix ic kw t); [reflexivity|discriminate].
  - intros (p & t & -> & H). apply search_is_Some.
    unfold match_at. rewrite mt_lit, H. eauto.
Qed.

(** Line 139 finds a match whenever line 138 does. *)
Lemma context_found kw text :
  is_Some (search true (RLit kw) text) ->
  is_Some (search true (context_pattern kw) text).
Proof.
  rewrite search_lit_Some. intros (p & t & -> & H).
  apply search_is_Some, context_match_at, H.
Qed.

Lemma consumed_app (p s : str) : consumed (p ++ s) s = p.
Proof.
  unfold consumed. rewrite length_app.
  replace (length p + length s - length s)%nat with (length p) by lia.
  apply take_app_length.
Qed.

(** What the context pattern matches is an occurrence of the keyword with
    some text on either side. *)
Lemma context_match_shape kw t mm :
  match_at true (context_pattern kw) t = Some mm ->
  exists a w b, group0 mm = a ++ w ++ b /\ occurrence kw w.
Proof.
  unfold match_at, context_pattern. intros H.
  rewrite mt_seq in H.
  apply (mt_inv true (fun s _ => exists a, t = a ++ s)) in H.
  - destruct H as (s1 & c1 & [a ->] & H). rewrite mt_seq, mt_lit in H.
    destruct (lit_prefix true kw s1) eqn:Hl; [|discriminate].
    apply lit_prefix_occurrence in Hl as (w & r & -> & Hw).
    assert (El : length kw = length w) by (eapply Forall2_length; eassumption).
    rewrite El, drop_app_length in H.
    apply (mt_inv true (fun s _ => exists b, r = b ++ s)) in H.
    + destruct H as (s3 & c3 & [b ->] & H). inversion H; subst mm; simpl.
      exists a, w, b. split; [|assumption].
      replace (a ++ w ++ b ++ s3) with ((a ++ w ++ b) ++ s3)
        by (rewrite <- !app_assoc; reflexivity).
      apply consumed_app.
    + intros x s c [b ->]. exists (b ++ [x]). rewrite <- app_assoc. reflexivity.
    + auto.
    + exists []. reflexivity.
  - intros x s c [a ->]. exists (a ++ [x]). rewrite <- app_assoc. reflexivity.
  - auto.
  - exists []. reflexivity.
Qed.

Lemma lstrip_keep p y : starts_solid y -> exists p', lstrip (p ++ y) = p' ++ y.
Proof.
  intros Hy. induction p as [|x p IH]; simpl.
  - exists []. destruct y as [|x y]; [contradiction|]. simpl in *. rewrite Hy. reflexivity.
  - destruct (is_space x); [assumption|]. exists (x :: p). reflexivity.
Qed.

(** Stripping keeps an inner part that begins and ends without white space. *)
Lemma strip_keep a w b :
  starts_solid w -> starts_solid (rev w) ->
  exists a' b', strip (a ++ w ++ b) = a' ++ w ++ b'.
Proof.
  intros Hw Hr. unfold strip, rstrip.
  destruct (lstrip_keep a (w ++ b)) as [a' ->].
  { destruct w; [contradiction|assumption]. }
  rewrite !rev_app_distr.
  assert (Hy : starts_solid (rev w ++ rev a')).
  { destruct (rev w); [contradiction|assumption]. }
  rewrite <- app_assoc.
  destruct (lstrip_keep (rev b) (rev w ++ rev a') Hy) as [b' ->].
  exists a', (rev b'). rewrite !rev_app_distr, !rev_involutive, <- app_assoc.
  reflexivity.
Qed.

Lemma occurrence_rev kw w : occurrence kw w -> occurrence (rev kw) (rev w).
Proof.
  unfold occurrence. induction 1; simpl; [constructor|].
  apply Forall2_app; [assumption|]. constructor; [assumption|constructor].
Qed.

Lemma last_rev_head (kw : str) c d : List.last (c :: kw) d = List.hd d (rev (c :: kw)).
Proof.
  rewrite <- (rev_involutive (c :: kw)) at 1.
  destruct (rev (c :: kw)) as [|y l] eqn:E.
  - apply (f_equal (@length N)) in E. rewrite length_rev in E. discriminate.
  - simpl. apply List.last_last.
Qed.

Lemma occurrence_solid kw w :
  edges_solid kw = true -> occurrence kw w -> starts_solid w /\ starts_solid (rev w).
Proof.
  intros He Hw. destruct kw as [|c kw]; [discriminate|].
  unfold edges_solid in He. apply andb_true_iff in He as [Hc Hl]. split.
  - inversion Hw as [|? x ? w' Hx Hw']; subst. unfold starts_solid.
    exact (solid_char_eq x c Hc Hx).
  - apply occurrence_rev in Hw. rewrite last_rev_head in Hl.
    destruct (rev (c :: kw)) as [|y l] eqn:E.
    + apply (f_equal (@length N)) in E. rewrite length_rev in E. discriminate.
    + inversion Hw as [|? x ? w' Hx Hw']; subst. unfold starts_solid.
      exact (solid_char_eq x y Hl Hx).
Qed.

Lemma keywords_solid kw : In kw keywords -> edges_solid kw = true.
Proof.
  assert (H : forallb edges_solid keywords = true) by (vm_compute; reflexivity).
  rewrite List.forallb_forall in H. apply H.
Qed.

(** What line 140 returns still holds the keyword. *)
Lemma context_result_holds_keyword kw text mm :
  edges_solid kw = true ->
  search true (context_pattern kw) text = Some mm ->
  is_Some (search true (RLit kw) (strip (group0 mm))).
Proof.
  intros He H. apply search_Some in H as (p & t & _ & H).
  apply context_match_shape in H as (a & w & b & -> & Hw).
  destruct (occurrence_solid kw w He Hw) as [H1 H2].
  destruct (strip_keep a w b H1 H2) as (a' & b' & ->).
  apply search_lit_Some. exists a', (w ++ b'). split; [reflexivity|].
  apply lit_prefix_occurrence. eauto.
Qed.

Lemma keyword_step_None kws text :
  keyword_step kws text = None <->
  forall kw, In kw kws -> search true (RLit kw) text = None.
Proof.
  induction kws as [|kw kws IH]; simpl.
  - split; [intros _ kw []|reflexivity].
  - destruct (search true (RLit kw) text) as [m|] eqn:E.
    + split.
      * destruct (search true (context_pattern kw) text); discriminate.
      * intros H. specialize (H kw (or_introl eq_refl)). congruence.
    + rewrite IH. split.
      * intros H k [<-|Hk]; auto.
      * intros H k Hk. apply H. right. assumption.
Qed.

(** The step returns at the first keyword of the list that the text holds. *)
Lemma keyword_step_first text kw after : forall before,
  (forall k, In k before -> search true (RLit k) text = None) ->
  is_Some (search true (RLit kw) text) ->
  keyword_step (before ++ kw :: after) text =
    match search true (context_pattern kw) text with
    | Some mm => Some (strip (group0 mm))
    | None => Some kw
    end.
Proof.
  induction before as [|k before IH]; intros Hb [m Hm]; simpl.
  - rewrite Hm. reflexivity.
  - rewrite (Hb k) by (left; reflexivity). apply IH; [|eauto].
    intros k' Hk'. apply Hb. right. assumption.
Qed.

(** C10. In the keyword step, a keyword found in the page text is found by
    the context pattern too, so that the match at line 139 is never absent
    and the bare keyword is never returned.  The step returns something as
    soon as the text holds a keyword: for the first keyword of the list that
    the text holds, the trimmed context, which still holds the keyword.  The
    extractor returns what the step returns when neither the selectors nor
    the label pattern have found anything. *)
Theorem keyword_context_always_matches :
  (forall text keyword,
     In keyword keywords ->
     is_Some (search true (RLit keyword) text) ->
     exists mm, search true (context_pattern keyword) text = Some mm
                /\ is_Some (search true (RLit keyword) (strip (group0 mm))))
  /\ (forall text r,
        keyword_step keywords text = Some r ->
        exists keyword mm,
          In keyword keywords
          /\ search true (context_pattern keyword) text = Some mm
          /\ r = strip (group0 mm)
          /\ is_Some (search true (RLit keyword) r))
  /\ (forall text keyword,
        In keyword keywords ->
        is_Some (search true (RLit keyword) text) ->
        is_Some (keyword_step keywords text))
  /\ (forall text before keyword after,
        keywords = before ++ keyword :: after ->
        (forall k, In k before -> search true (RLit k) text = None) ->
        is_Some (search true (RLit keyword) text) ->
        exists mm, search true (context_pattern keyword) text = Some mm
                   /\ keyword_step keywords text = Some (strip (group0 mm))
                   /\ is_Some (search true (RLit keyword) (strip (group0 mm))))
  /\ (forall soup,
        select_one [AttrEq (u "itemprop") (u "availability");
                    AttrHas (u "class") (u "availability");
                    AttrHas (u "id") (u "availability")] soup = None ->
        search true dostupnost_pattern (get_text [10] soup) = None ->
        extract_availability soup = Ok (keyword_step keywords (get_text [10] soup))).
Proof.
  assert (H1 : forall text keyword,
     In keyword keywords ->
     is_Some (search true (RLit keyword) text) ->
     exists mm, search true (context_pattern keyword) text = Some mm
                /\ is_Some (search true (RLit keyword) (strip (group0 mm)))).
  { intros text kw Hin Hs. destruct (context_found kw text Hs) as [mm Hmm].
    exists mm. split; [assumption|].
    eapply context_result_holds_keyword; eauto using keywords_solid. }
  split; [exact H1|]. split; [|split; [|split]].
  - intros text r.
    assert (G : forall kws, (forall k, In k kws -> In k keywords) ->
       keyword_step kws text = Some r ->
       exists keyword mm,
         In keyword keywords
         /\ search true (context_pattern keyword) text = Some mm
         /\ r = strip (group0 mm)
         /\ is_Some (search true (RLit keyword) r)).
    { induction kws as [|kw kws IH]; simpl; intros Hsub H; [discriminate|].
      destruct (search true (RLit kw) text) as [m|] eqn:E.
      - destruct (H1 text kw) as (mm & Hmm & Hk);
          [apply Hsub; left; reflexivity|rewrite E; eauto|].
        rewrite Hmm in H. inversion H; subst r. exists kw, mm.
        repeat split; auto.
      - apply IH; [|assumption]. intros k Hk. apply Hsub. right. assumption. }
    apply G. auto.
  - intros text kw Hin [m Hm].
    destruct (keyword_step keywords text) as [r|] eqn:E; [eauto|].
    rewrite keyword_step_None in E. rewrite (E kw Hin) in Hm. discriminate.
  - intros text before kw after Hk Hb Hs.
    assert (Hin : In kw keywords) by (rewrite Hk; apply in_elt).
    destruct (H1 text kw Hin Hs) as (mm & Hmm & Hr).
    exists mm. split; [exact Hmm|]. split; [|exact Hr].
    rewrite Hk, (keyword_step_first text kw after before Hb Hs), Hmm. reflexivity.
  - intros soup Hsel Hd. unfold extract_availability. rewrite Hsel, Hd. reflexivity.
Qed.

Lemma keyword_context_always_matches_witness :
  exists mm,
    search true (context_pattern (u "Vyprodáno"))
      (u "Cena 99 Kč" ++ [10] ++ u "Zboží je VYPRODÁNO, naskladníme brzy") = Some mm
    /\ keyword_step keywords
         (u "Cena 99 Kč" ++ [10] ++ u "Zboží je VYPRODÁNO, naskladníme brzy")
       = Some (strip (group0 mm))
    /\ is_Some (search true (RLit (u "Vyprodáno")) (strip (group0 mm))).
Proof.
  apply (proj1 (proj2 (proj2 (proj2 keyword_context_always_matches)))
           _ [u "Skladem"] (u "Vyprodáno")
           [u "Není skladem"; u "Do týdne"; u "Na objednávku";
            u "Dostupné"; u "Available"; u "Out of stock"; u "In stock"]).
  - reflexivity.
  - intros k [<-|[]]. vm_compute. reflexivity.
  - vm_compute. eauto.
Defined.

(** ** The details extractor *)

Lemma split_ws_words s : forall cur,
  Forall (fun c => is_space c = false) cur -> Forall word (split_ws cur s).
Proof.
  induction s as [|c s IH]; intros cur Hcur; simpl.
  - destruct cur as [|x cur]; constructor; [|constructor].
    split; [|apply List.Forall_rev; assumption].
    intros E. apply (f_equal (@length N)) in E. rewrite length_rev in E. discriminate.
  - destruct (is_space c) eqn:Ec.
    + destruct cur as [|x cur]; [apply IH; constructor|].
      constructor; [|apply IH; constructor].
      split; [|apply List.Forall_rev; assumption].
      intros E. apply (f_equal (@length N)) in E. rewrite length_rev in E.
      discriminate.
    + apply IH. constructor; assumption.
Qed.

Lemma split_ws_word_app w : forall cur rest,
  Forall (fun c => is_space c = false) w ->
  split_ws cur (w ++ rest) = split_ws (rev w ++ cur) rest.
Proof.
  induction w as [|c w IH]; intros cur rest Hw; simpl; [reflexivity|].
  inversion Hw as [|? ? Hc Hw']; subst. rewrite Hc, IH by assumption.
  rewrite <- app_assoc. reflexivity.
Qed.

Lemma rev_nonempty (w : str) : w <> [] -> exists x l, rev w = x :: l.
Proof.
  intros H. destruct (rev w) as [|x l] eqn:E; [|eauto].
  apply (f_equal (@length N)) in E. rewrite length_rev in E.
  destruct w; [congruence|discriminate].
Qed.

Lemma split_ws_space y l rest :
  split_ws (y :: l) (32 :: rest) = rev (y :: l) :: split_ws [] rest.
Proof. reflexivity. Qed.

(** Splitting undoes joining words with one space. *)
Lemma split_join ws : Forall word ws -> split (join [32] ws) = ws.
Proof.
  unfold split. induction ws as [|x ws IH]; intros H; [reflexivity|].
  inversion H as [|? ? [Hne Hx] Hws]; subst.
  destruct (rev_nonempty x Hne) as (y & l & E).
  destruct ws as [|z ws].
  - simpl.
    replace (split_ws [] x) with (split_ws [] (x ++ []))
      by (rewrite app_nil_r; reflexivity).
    rewrite split_ws_word_app, app_nil_r by assumption.
    simpl. rewrite E, <- E, rev_involutive. reflexivity.
  - change (join [32] (x :: z :: ws)) with (x ++ 32 :: join [32] (z :: ws)).
    rewrite split_ws_word_app, app_nil_r by assumption.
    rewrite E, split_ws_space, <- E, rev_involutive, IH by assumption.
    reflexivity.
Qed.

Lemma collapse_idem d : collapse (collapse d) = collapse d.
Proof.
  unfold collapse. change (u " ") with [32]. rewrite split_join; [reflexivity|].
  apply split_ws_words. constructor.
Qed.

(** The loop of lines 187-194 appends to [out], in their order, entries that
    are collapsed, not empty, and new. *)
Lemma dedup_appends details : forall (seen : gset str) out,
  (forall x, x ∈ seen <-> x ∈ out) ->
  exists tl,
    dedup seen out details = out ++ tl
    /\ sublist tl (List.map collapse details)
    /\ Forall (fun d => d <> [] /\ collapse d = d) tl
    /\ (NoDup out -> NoDup (out ++ tl)).
Proof.
  induction details as [|d details IH]; intros seen out Hseen; simpl.
  - exists []. rewrite app_nil_r. repeat split; auto.
  - fold (collapse d).
    destruct (nonempty (collapse d)) eqn:Hn; simpl.
    + destruct (bool_decide (collapse d ∈ seen)) eqn:Hs; simpl.
      * destruct (IH seen out Hseen) as (tl & -> & Hsub & Hall & Hnd).
        exists tl. repeat split; auto. apply sublist_cons. assumption.
      * apply bool_decide_eq_false in Hs.
        destruct (IH ({[collapse d]} ∪ seen) (out ++ [collapse d]))
          as (tl & -> & Hsub & Hall & Hnd).
        { intros x. rewrite elem_of_union, elem_of_singleton, elem_of_app,
            list_elem_of_singleton, Hseen. tauto. }
        exists (collapse d :: tl). rewrite <- app_assoc. repeat split.
        -- apply sublist_skip. assumption.
        -- constructor; [|assumption]. split; [|apply collapse_idem].
           destruct (collapse d); [discriminate|congruence].
        -- intros Hout. rewrite <- app_assoc in Hnd. apply Hnd.
           apply NoDup_app. repeat split; [assumption| |apply NoDup_singleton].
           intros x Hx Hx'. apply list_elem_of_singleton in Hx'. subst.
           apply Hs, Hseen, Hx.
    + destruct (IH seen out Hseen) as (tl & -> & Hsub & Hall & Hnd).
      exists tl. repeat split; auto. apply sublist_cons. assumption.
Qed.

(** The last step of the cascade, which runs through lines 187-194, returns
    a list without empty entries, without two entries equal after collapsing,
    in first-seen order. *)
Lemma dedup_invariant details :
  let out := dedup ∅ [] details in
  Forall (fun d => d <> []) out
  /\ NoDup (List.map collapse out)
  /\ sublist out (List.map collapse details).
Proof.
  intros out. destruct (dedup_appends details ∅ []) as (tl & E & Hsub & Hall & Hnd).
  { intros x. rewrite elem_of_nil. set_solver. }
  subst out. rewrite E. simpl. repeat split.
  - eapply Forall_impl; [exact Hall|]. intros d [H _]. exact H.
  - replace (List.map collapse tl) with tl; [apply Hnd; constructor|].
    clear -Hall. induction Hall as [|d tl [_ Hd] _ IH]; simpl; [reflexivity|].
    rewrite Hd, <- IH. reflexivity.
  - assumption.
Qed.

(** C2 at its failing inputs: the three early returns of [extract_details]
    hand back the collected texts as they are, with empty entries and with
    entries that are equal, or equal after collapsing white space. *)
Theorem extract_details_early_returns_raw :
  extract_details page_heading_list = [u "A"; u "A"; []]
  /\ extract_details page_heading_siblings = [u "A  B"; u "A B"]
  /\ extract_details page_spec_list = [u "A"; []; u "A"]
  /\ ~ NoDup (List.map collapse (extract_details page_heading_list))
  /\ ~ NoDup (List.map collapse (extract_details page_heading_siblings))
  /\ [] ∈ extract_details page_spec_list.
Proof.
  assert (E1 : extract_details page_heading_list = [u "A"; u "A"; []])
    by (vm_compute; reflexivity).
  assert (E2 : extract_details page_heading_siblings = [u "A  B"; u "A B"])
    by (vm_compute; reflexivity).
  assert (E3 : extract_details page_spec_list = [u "A"; []; u "A"])
    by (vm_compute; reflexivity).
  rewrite E1, E2, E3. repeat split.
  - intros H. inversion H as [|? ? Hx _]; subst. apply Hx. left.
  - intros H. inversion H as [|? ? Hx _]; subst. apply Hx.
    vm_compute. left.
  - right. left.
Qed.

Example extract_details_fallback_sample :
  extract_details page_items_only = [u "A"; u "B C"].
Proof. vm_compute. reflexivity. Qed.

(** ** The checker *)

Lemma extract_price_total soup : exists r, extract_price soup = Ok r.
Proof.
  unfold extract_price.
  repeat match goal with
  | |- context [match ?x with _ => _ end] => destruct x
  end; eauto using normalize_price_total.
Qed.

Lemma extract_availability_total soup : exists r, extract_availability soup = Ok r.
Proof.
  unfold extract_availability.
  destruct (select_one _ soup); [eauto|].
  destruct (search true dostupnost_pattern _) as [m|] eqn:E; [|eauto].
  destruct (search_group true 2 dostupnost_pattern _ m eq_refl E) as [g ->].
  simpl. eauto.
Qed.

(** A failed retrieval is the outcome of the check, and changes nothing. *)
Lemma check_page_fetch_fails env url flag w e :
  http_get env url = Raise e -> check_page env url flag w = (Raise e, w).
Proof.
  intros H. unfold check_page, fetch_html, lift, mbind, M_bind. rewrite H.
  reflexivity.
Qed.

(** With [save_state] false the check returns the comparison of the new
    snapshot with the stored one, and leaves the table as it was. *)
Lemma check_page_no_save env url w html :
  http_get env url = Ok html ->
  exists p a,
    check_page env url false w =
      (Ok (summarize_changes (stored w url)
             {| price := p; availability := a;
                details := extract_details (lxml env html);
                checked_at := isoformat env (clock w) ++ u "Z" |}),
       tick w).
Proof.
  intros H. destruct (extract_price_total (lxml env html)) as [p Hp].
  destruct (extract_availability_total (lxml env html)) as [a Ha].
  exists p, a.
  unfold check_page, fetch_html, lift, mbind, M_bind. rewrite H, Hp, Ha.
  unfold utcnow_z, load_state, stored, tick. simpl.
  destruct (page_state w !! url) as [[[s|raw] ts]|]; reflexivity.
Qed.

(** With [save_state] true the check gets as far as line 264 and raises
    there: no report is returned and no row is written. *)
Lemma check_page_save env url w html :
  http_get env url = Ok html ->
  check_page env url true w = (Raise bool_not_callable, tick w).
Proof.
  intros H. destruct (extract_price_total (lxml env html)) as [p Hp].
  destruct (extract_availability_total (lxml env html)) as [a Ha].
  unfold check_page, fetch_html, lift, mbind, M_bind. rewrite H, Hp, Ha.
  reflexivity.
Qed.

(** C1 on the code: called with [save_state] true, the default, [check_page]
    returns no report and writes nothing to the state store, whatever the
    URL; when the page is retrieved, what it raises is the [TypeError] of
    calling the flag at line 264. *)
Theorem check_page_persist_never_returns :
  (forall env url w,
     (exists e, (check_page env url true w).1 = Raise e)
     /\ page_state (check_page env url true w).2 = page_state w)
  /\ (forall env url w html,
        http_get env url = Ok html ->
        (check_page env url true w).1 = Raise bool_not_callable).
Proof.
  split.
  - intros env url w. destruct (http_get env url) as [html|e] eqn:H.
    + rewrite (check_page_save env url w html H). simpl. eauto.
    + rewrite (check_page_fetch_fails env url true w e H). simpl. eauto.
  - intros env url w html H. rewrite (check_page_save env url w html H).
    reflexivity.
Qed.

Lemma check_page_persist_never_returns_witness :
  (check_page sample_env (u "http://a") true empty_world).1 = Raise bool_not_callable
  /\ page_state (check_page sample_env (u "http://a") true empty_world).2 = ∅.
Proof.
  split.
  - eapply (proj2 check_page_persist_never_returns). vm_compute. reflexivity.
  - rewrite (proj2 (proj1 check_page_persist_never_returns _ _ _)). reflexivity.
Defined.

Lemma stored_tick w url : stored (tick w) url = stored w url.
Proof. reflexivity. Qed.

(** C3 on the code: for a URL without a stored snapshot and a page that is
    retrieved unchanged, a second run never answers [changed = false].  With
    persistence both runs raise at line 264 and nothing is stored; without it
    the second run finds no prior record again. *)
Theorem checker_second_run_never_unchanged env url html w :
  http_get env url = Ok html -> stored w url = None ->
  (let '(r1, w1) := check_page env url true w in
   let '(r2, w2) := check_page env url true w1 in
   r1 = Raise bool_not_callable /\ r2 = Raise bool_not_callable
   /\ stored w2 url = None)
  /\ (let '(r1, w1) := check_page env url false w in
      let '(r2, w2) := check_page env url false w1 in
      exists rep1 rep2,
        r1 = Ok rep1 /\ r2 = Ok rep2
        /\ changed rep2 = true /\ changes rep2 = [no_prior_record]).
Proof.
  intros H Hs. split.
  - rewrite (check_page_save env url w html H).
    rewrite (check_page_save env url (tick w) html H).
    rewrite !stored_tick. auto.
  - destruct (check_page_no_save env url w html H) as (p & a & ->).
    destruct (check_page_no_save env url (tick w) html H) as (p' & a' & ->).
    rewrite stored_tick, Hs. eexists _, _. repeat split.
Qed.

Lemma checker_second_run_never_unchanged_witness :
  http_get sample_env (u "http://a") = Ok (u "<p>Cena: 99 Kč</p><p>Skladem</p>")
  /\ stored empty_world (u "http://a") = None
  /\ (let '(r1, w1) := check_page sample_env (u "http://a") true empty_world in
      let '(r2, w2) := check_page sample_env (u "http://a") true w1 in
      r1 = Raise bool_not_callable /\ r2 = Raise bool_not_callable
      /\ stored w2 (u "http://a") = None)
  /\ (let '(r1, w1) := check_page sample_env (u "http://a") false empty_world in
      let '(r2, w2) := check_page sample_env (u "http://a") false w1 in
      exists rep1 rep2,
        r1 = Ok rep1 /\ r2 = Ok rep2
        /\ changed rep2 = true /\ changes rep2 = [no_prior_record]).
Proof.
  split; [reflexivity|]. split; [reflexivity|].
  apply (checker_second_run_never_unchanged sample_env (u "http://a")
           (u "<p>Cena: 99 Kč</p><p>Skladem</p>") empty_world);
    reflexivity.
Defined.

(** ** The batch *)

Lemma logging_ok line w : exists w', logging line w = (Ok tt, w').
Proof. unfold logging. eauto. Qed.

Lemma human_summary_ok res w : exists w', human_summary res w = (Ok tt, w').
Proof.
  unfold human_summary, mbind, M_bind.
  assert (F : forall l w, exists w',
            foldr (fun c k => _ ← logging (u " - " ++ c); k) (mret tt) l w
            = (Ok tt, w')).
  { induction l as [|c l IH]; intros w0; simpl.
    - eexists. reflexivity.
    - unfold mbind at 1, M_bind at 1. simpl. apply IH. }
  destruct (changed res).
  - simpl. destruct (F (changes res) (logging (u "Změny detekovány:") w).2)
      as [w' E].
    unfold mbind, M_bind in E. simpl in E. rewrite E. eexists. reflexivity.
  - simpl. eexists. reflexivity.
Qed.

Lemma main_loop_cons env url urls no_save json results w :
  main_loop env (url :: urls) no_save json results w =
    match
      (_ ← logging (u "Kontrola: " ++ url);
       res ← check_page env url (negb no_save);
       let results := <[url := Report res]> results in
       if json then mret results
       else (_ ← human_summary res; mret results)) w
    with
    | (Ok results, w) => main_loop env urls no_save json results w
    | (Raise e, w) =>
        match logging (u "Chyba při zpracování " ++ url ++ u ": " ++ exn_msg e) w with
        | (_, w) =>
            main_loop env urls no_save json
              (<[url := ErrorRecord (exn_msg e)]> results) w
        end
    end.
Proof. reflexivity. Qed.

(** One turn of the loop: whatever the check of [url] does, its entry is
    recorded and the loop goes on with the remaining URLs. *)
Lemma main_loop_step env url urls no_save json results w :
  exists w',
    main_loop env (url :: urls) no_save json results w =
      main_loop env urls no_save json
        (<[url := entry_of (check_page env url (negb no_save) (announced url w)).1]>
           results) w'.
Proof.
  rewrite main_loop_cons. unfold mbind, M_bind, mret, M_ret.
  change (logging (u "Kontrola: " ++ url) w) with (Ok tt, announced url w).
  cbv beta iota.
  destruct (check_page env url (negb no_save) (announced url w)) as [[res|e] w1].
  - destruct json.
    + eexists. reflexivity.
    + destruct (human_summary_ok res w1) as [w2 ->]. eexists. reflexivity.
  - eexists. reflexivity.
Qed.

(** Every URL of the batch gets the entry of a check of that URL, and the
    other keys of [results] are left alone. *)
Lemma main_loop_entries env no_save json urls : forall results w url,
  (url ∈ urls ->
   exists w0, (main_loop env urls no_save json results w).1 !! url
              = Some (entry_of (check_page env url (negb no_save) w0).1))
  /\ (url ∉ urls ->
      (main_loop env urls no_save json results w).1 !! url = results !! url).
Proof.
  induction urls as [|u0 urls IH]; intros results w url.
  - split; [intros H; inversion H|reflexivity].
  - destruct (main_loop_step env u0 urls no_save json results w) as [w' ->].
    destruct (IH (<[u0 := entry_of
                     (check_page env u0 (negb no_save) (announced u0 w)).1]> results)
                 w' url) as [IH1 IH2].
    split.
    + intros Hin. destruct (decide (url ∈ urls)) as [Hu|Hu]; [auto|].
      apply elem_of_cons in Hin as [->|Hin]; [|contradiction].
      rewrite IH2 by assumption. rewrite lookup_insert_eq. eauto.
    + intros Hn. apply not_elem_of_cons in Hn as [Hne Hn].
      rewrite IH2 by assumption. apply lookup_insert_ne. congruence.
Qed.

(** With [--no-save] the batch does what the specification says: a failed
    retrieval of the second URL leaves the first and the third with their
    reports. *)
Lemma batch_no_save_isolated env u1 u2 u3 h1 h3 e json w :
  http_get env u1 = Ok h1 -> http_get env u2 = Raise e -> http_get env u3 = Ok h3 ->
  exists r1 r3,
    (main env [u1; u2; u3] true json w).1 =
      <[u3 := Report r3]> (<[u2 := ErrorRecord (exn_msg e)]> (<[u1 := Report r1]> ∅)).
Proof.
  intros H1 H2 H3. unfold main.
  destruct (main_loop_step env u1 [u2; u3] true json ∅ w) as [w1 ->].
  destruct (main_loop_step env u2 [u3] true json
              (<[u1 := entry_of (check_page env u1 (negb true) (announced u1 w)).1]> ∅)
              w1) as [w2 ->].
  destruct (main_loop_step env u3 [] true json
              (<[u2 := entry_of (check_page env u2 (negb true) (announced u2 w1)).1]>
                 (<[u1 := entry_of (check_page env u1 (negb true) (announced u1 w)).1]> ∅))
              w2) as [w3 ->].
  simpl negb.
  destruct (check_page_no_save env u1 (announced u1 w) h1 H1) as (p1 & a1 & ->).
  destruct (check_page_no_save env u3 (announced u3 w2) h3 H3) as (p3 & a3 & ->).
  rewrite (check_page_fetch_fails env u2 false (announced u2 w1) e H2).
  simpl. eauto.
Qed.

(** C9 on the code: run with the default flags, a batch of three URLs whose
    second retrieval fails records an error for each of the three: the first
    and the third are retrieved, and fail at line 264.  No URL of the batch
    gets a report. *)
Theorem batch_default_records_only_errors env u1 u2 u3 h1 h3 e json w :
  http_get env u1 = Ok h1 -> http_get env u2 = Raise e -> http_get env u3 = Ok h3 ->
  (main env [u1; u2; u3] false json w).1 =
    <[u3 := ErrorRecord (exn_msg bool_not_callable)]>
      (<[u2 := ErrorRecord (exn_msg e)]>
         (<[u1 := ErrorRecord (exn_msg bool_not_callable)]> ∅))
  /\ forall url r, (main env [u1; u2; u3] false json w).1 !! url <> Some (Report r).
Proof.
  intros H1 H2 H3.
  assert (E : (main env [u1; u2; u3] false json w).1 =
    <[u3 := ErrorRecord (exn_msg bool_not_callable)]>
      (<[u2 := ErrorRecord (exn_msg e)]>
         (<[u1 := ErrorRecord (exn_msg bool_not_callable)]> ∅))).
  { unfold main.
    destruct (main_loop_step env u1 [u2; u3] false json ∅ w) as [w1 ->].
    destruct (main_loop_step env u2 [u3] false json
                (<[u1 := entry_of (check_page env u1 (negb false) (announced u1 w)).1]> ∅)
                w1) as [w2 ->].
    destruct (main_loop_step env u3 [] false json
                (<[u2 := entry_of (check_page env u2 (negb false) (announced u2 w1)).1]>
                   (<[u1 := entry_of (check_page env u1 (negb false) (announced u1 w)).1]> ∅))
                w2) as [w3 ->].
    simpl negb.
    rewrite (check_page_save env u1 (announced u1 w) h1 H1).
    rewrite (check_page_save env u3 (announced u3 w2) h3 H3).
    rewrite (check_page_fetch_fails env u2 true (announced u2 w1) e H2).
    reflexivity. }
  split; [exact E|]. intros url r. rewrite E.
  rewrite !lookup_insert. repeat case_decide; discriminate.
Qed.

Lemma batch_default_records_only_errors_witness :
  let timeout := Exn RequestException (u "timed out") in
  let page := u "<p>Cena: 99 Kč</p><p>Skladem</p>" in
  http_get sample_env (u "http://a") = Ok page
  /\ http_get sample_env (u "http://b") = Raise timeout
  /\ http_get sample_env (u "http://c") = Ok page
  /\ (main sample_env [u "http://a"; u "http://b"; u "http://c"] false true empty_world).1
     = <[u "http://c" := ErrorRecord (exn_msg bool_not_callable)]>
         (<[u "http://b" := ErrorRecord (exn_msg timeout)]>
            (<[u "http://a" := ErrorRecord (exn_msg bool_not_callable)]> ∅)).
Proof.
  intros timeout page.
  assert (Ha : http_get sample_env (u "http://a") = Ok page)
    by (vm_compute; reflexivity).
  assert (Hb : http_get sample_env (u "http://b") = Raise timeout)
    by (vm_compute; reflexivity).
  assert (Hc : http_get sample_env (u "http://c") = Ok page)
    by (vm_compute; reflexivity).
  split; [exact Ha|]. split; [exact Hb|]. split; [exact Hc|].
  exact (proj1 (batch_default_records_only_errors sample_env
                  (u "http://a") (u "http://b") (u "http://c")
                  page page timeout true empty_world Ha Hb Hc)).
Defined.

Example batch_no_save_sample :
  exists r1 r3,
    (main sample_env [u "http://a"; u "http://b"; u "http://c"] true true empty_world).1
    = <[u "http://c" := Report r3]>
        (<[u "http://b" := ErrorRecord (u "timed out")]>
           (<[u "http://a" := Report r1]> ∅)).
Proof.
  assert (Ha : http_get sample_env (u "http://a")
               = Ok (u "<p>Cena: 99 Kč</p><p>Skladem</p>"))
    by (vm_compute; reflexivity).
  assert (Hb : http_get sample_env (u "http://b")
               = Raise (Exn RequestException (u "timed out")))
    by (vm_compute; reflexivity).
  assert (Hc : http_get sample_env (u "http://c")
               = Ok (u "<p>Cena: 99 Kč</p><p>Skladem</p>"))
    by (vm_compute; reflexivity).
  exact (batch_no_save_isolated sample_env _ _ _ _ _ _ true empty_world Ha Hb Hc).
Qed.

(** * Further properties *)

(** ** More on the differ *)

(** The flag of the differ's state says whether a message has been recorded. *)
Lemma report_flag msg (s : diff_state) : (report msg s).1 = nonempty (report msg s).2.
Proof. unfold report; simpl. destruct (s.2); reflexivity. Qed.

Lemma compare_price_flag p q (s : diff_state) :
  s.1 = nonempty s.2 -> (compare_price p q s).1 = nonempty (compare_price p q s).2.
Proof. unfold compare_price. destruct (negb _); auto using report_flag. Qed.

Lemma compare_availability_flag p q (s : diff_state) :
  s.1 = nonempty s.2 ->
  (compare_availability p q s).1 = nonempty (compare_availability p q s).2.
Proof. unfold compare_availability. destruct (negb _); auto using report_flag. Qed.

Lemma compare_details_flag p q (s : diff_state) :
  s.1 = nonempty s.2 -> (compare_details p q s).1 = nonempty (compare_details p q s).2.
Proof.
  unfold compare_details. repeat destruct (nonempty (_ p q)); auto using report_flag.
Qed.

Lemma compare_price_length p q (s : diff_state) :
  (length (compare_price p q s).2 <= S (length s.2))%nat.
Proof.
  unfold compare_price. destruct (negb _); simpl; rewrite ?length_app; simpl; lia.
Qed.

Lemma compare_availability_length p q (s : diff_state) :
  (length (compare_availability p q s).2 <= S (length s.2))%nat.
Proof.
  unfold compare_availability. destruct (negb _); simpl; rewrite ?length_app; simpl; lia.
Qed.

Lemma compare_details_length p q (s : diff_state) :
  (length (compare_details p q s).2 <= S (S (length s.2)))%nat.
Proof.
  unfold compare_details. repeat destruct (nonempty (_ p q)); simpl;
    rewrite ?length_app; simpl; rewrite ?length_app; simpl; lia.
Qed.

(** X1. Whatever the two snapshots, the report's flag and its messages agree:
    [changed] is true exactly when [changes] is not empty, and there are at
    most four messages (one per comparison). *)
Theorem changed_iff_changes (old_snapshot : option Snapshot) (new_snapshot : Snapshot) :
  let r := summarize_changes old_snapshot new_snapshot in
  (changed r = true <-> changes r <> [])
  /\ (length (changes r) <= 4)%nat.
Proof.
  destruct old_snapshot as [o|]; simpl.
  - set (s1 := compare_price (price o) (price new_snapshot) (false, [])).
    set (s2 := compare_availability (availability o) (availability new_snapshot) s1).
    set (s3 := compare_details (details o) (details new_snapshot) s2).
    assert (F : s3.1 = nonempty s3.2).
    { apply compare_details_flag, compare_availability_flag, compare_price_flag.
      reflexivity. }
    split.
    + rewrite F. destruct (s3.2); simpl; split; congruence.
    + pose proof (compare_price_length (price o) (price new_snapshot) (false, [])).
      pose proof (compare_availability_length (availability o)
                    (availability new_snapshot) s1).
      pose proof (compare_details_length (details o) (details new_snapshot) s2).
      fold s1 in H. fold s2 in H0. fold s3 in H1. simpl in H. lia.
  - split; [split; [discriminate|reflexivity]|lia].
Qed.

Lemma nonempty_false {A} (l : list A) : nonempty l = false <-> l = [].
Proof. destruct l; simpl; split; congruence. Qed.

Lemma entries_not_in_nil xs ys :
  entries_not_in xs ys = [] <-> forall d, d ∈ xs -> d ∈ ys.
Proof.
  unfold entries_not_in. induction xs as [|x xs IH]; simpl.
  - split; [intros _ d H; inversion H|reflexivity].
  - destruct (bool_decide (x ∉ ys)) eqn:E.
    + apply bool_decide_eq_true in E. split; [discriminate|].
      intros H. exfalso. apply E, H. left.
    + apply bool_decide_eq_false in E. rewrite IH. split.
      * intros H d Hd. apply elem_of_cons in Hd as [->|Hd]; [|auto].
        destruct (decide (x ∈ ys)); [assumption|contradiction].
      * intros H d Hd. apply H. right. assumption.
Qed.

Lemma report_not_initial msg s : report msg s <> (false, []).
Proof. unfold report. intros H. inversion H. Qed.

Lemma flag_true_ne (s : diff_state) : s.1 = true -> s <> (false, []).
Proof. intros H E. rewrite E in H. discriminate. Qed.

(** X2. The differ answers "unchanged" exactly when the two prices agree up
    to null/empty, the two availabilities agree up to null/empty, and the two
    details lists have the same entries: the order of the details and their
    repetitions are not compared, and neither is [checked_at]. *)
Theorem unchanged_iff (o n : Snapshot) :
  outcome o n = (false, []) <->
    or_empty (price o) = or_empty (price n)
    /\ or_empty (availability o) = or_empty (availability n)
    /\ (forall d, d ∈ details o <-> d ∈ details n).
Proof.
  unfold outcome, summarize_changes; simpl. split.
  - intros H.
    destruct (decide (or_empty (price o) = or_empty (price n))) as [Hp|Hp].
    2:{ exfalso. revert H. unfold compare_price at 1.
        rewrite (eqb_neq _ _ Hp). simpl negb. cbv iota.
        set (s1 := report _ _). intros H.
        assert (F : (compare_details (details o) (details n)
                       (compare_availability (availability o) (availability n) s1)).1
                    = true)
          by (apply compare_details_fst, compare_availability_fst; reflexivity).
        inversion H as [[H1 H2]]. rewrite H1 in F. discriminate. }
    rewrite (compare_price_same _ _ _ Hp) in H.
    destruct (decide (or_empty (availability o) = or_empty (availability n)))
      as [Ha|Ha].
    2:{ exfalso. revert H. unfold compare_availability at 1.
        rewrite (eqb_neq _ _ Ha). simpl negb. cbv iota.
        set (s1 := report _ _). intros H.
        assert (F : (compare_details (details o) (details n) s1).1 = true)
          by (apply compare_details_fst; reflexivity).
        inversion H as [[H1 H2]]. rewrite H1 in F. discriminate. }
    rewrite (compare_availability_same _ _ _ Ha) in H.
    split; [assumption|]. split; [assumption|].
    unfold compare_details in H. rewrite added_spec, removed_spec in H.
    destruct (nonempty (entries_not_in (details n) (details o))) eqn:E1.
    { exfalso. destruct (nonempty (entries_not_in (details o) (details n)));
        inversion H. }
    destruct (nonempty (entries_not_in (details o) (details n))) eqn:E2.
    { exfalso. inversion H. }
    apply nonempty_false in E1. apply nonempty_false in E2.
    pose proof (proj1 (entries_not_in_nil _ _) E1) as G1.
    pose proof (proj1 (entries_not_in_nil _ _) E2) as G2.
    intros d. split; auto.
  - intros (Hp & Ha & Hd).
    rewrite (compare_price_same _ _ _ Hp), (compare_availability_same _ _ _ Ha).
    unfold compare_details. rewrite added_spec, removed_spec.
    assert (E1 : entries_not_in (details n) (details o) = [])
      by (apply entries_not_in_nil; intros d; apply Hd).
    assert (E2 : entries_not_in (details o) (details n) = [])
      by (apply entries_not_in_nil; intros d; apply Hd).
    rewrite E1, E2. reflexivity.
Qed.

Lemma unchanged_iff_witness :
  outcome (snap None (Some (u "Skladem")) [u "A"; u "B"; u "A"])
          (snap (Some []) (Some (u "Skladem")) [u "B"; u "A"])
  = (false, []).
Proof.
  apply unchanged_iff. simpl. repeat split; try reflexivity.
  all: rewrite !elem_of_cons, !elem_of_nil; tauto.
Defined.

(** X3. An old price that parses as zero gives no percentage: the message is
    the plain one and the division of line 224 is not reached. *)
Theorem zero_old_price_no_percentage (o n : Snapshot) op np a :
  price o = Some op -> price n = Some np -> op <> np ->
  Float.of_str op = Ok a -> Float.is_zero a = true ->
  exists rest, outcome o n = (true, (u "Cena: " ++ op ++ u " → " ++ np) :: rest).
Proof.
  intros Ho Hn Hne Ha Hz.
  destruct (price_message_first o n op np Ho Hn Hne) as [rest ->].
  exists rest. do 2 f_equal.
  unfold with_percentage, float_opt. rewrite Ha. simpl.
  destruct (Float.of_str np); simpl; [rewrite Hz|]; reflexivity.
Qed.

Lemma zero_old_price_no_percentage_witness :
  exists rest,
    outcome (snap (Some (u "0.00")) None []) (snap (Some (u "5.00")) None [])
    = (true, u "Cena: 0.00 → 5.00" :: rest).
Proof.
  apply (zero_old_price_no_percentage _ _ (u "0.00") (u "5.00") (S754_zero false));
    try reflexivity.
  discriminate.
Defined.

(** ** The state store *)

(** X4. A snapshot saved for a URL is the one [load_state] finds for it
    afterwards; the rows of the other URLs are as before, and the row is
    stamped with the reading of the clock. *)
Theorem save_then_load env url snapshot w :
  let w' := (save_state env url snapshot w).2 in
  (save_state env url snapshot w).1 = Ok tt
  /\ (load_state url w').1 = Ok (Some snapshot)
  /\ (forall url', url' <> url -> (load_state url' w').1 = (load_state url' w).1)
  /\ row_checked_at <$> (page_state w' !! url)
     = Some (isoformat env (clock w) ++ u "Z").
Proof.
  unfold save_state, load_state, upsert, utcnow_z, mbind, M_bind; simpl.
  rewrite lookup_insert_eq. repeat split.
  intros url' Hne. rewrite lookup_insert_ne by congruence. reflexivity.
Qed.

(** X5. [save_state] is an upsert: a second save for the same URL replaces
    the row of the first, of which nothing remains, and the table gains no
    other key. *)
Theorem save_state_overwrites env url s1 s2 w :
  let w1 := (save_state env url s1 w).2 in
  let w2 := (save_state env url s2 w1).2 in
  page_state w2 =
    <[url := {| row_snapshot := Encoded s2;
                row_checked_at := isoformat env (clock w + 1) ++ u "Z" |}]>
      (page_state w)
  /\ dom (page_state w2) = {[url]} ∪ dom (page_state w).
Proof.
  unfold save_state, upsert, utcnow_z, mbind, M_bind; simpl.
  rewrite insert_insert_eq. split; [reflexivity|]. apply dom_insert_L.
Qed.

(** ** More on the checker *)

Lemma check_page_state env url flag w :
  page_state (check_page env url flag w).2 = page_state w.
Proof.
  destruct (http_get env url) as [html|e] eqn:H.
  - destruct flag.
    + rewrite (check_page_save env url w html H). reflexivity.
    + destruct (check_page_no_save env url w html H) as (p & a & ->). reflexivity.
  - rewrite (check_page_fetch_fails env url flag w e H). reflexivity.
Qed.

(** X6. For a URL whose row, if any, holds a snapshot written by
    [save_state] or a text that does not decode: called with [save_state]
    false, [check_page] fails exactly when the retrieval fails, and with the
    exception of the retrieval; otherwise it returns a report that compares
    the stored snapshot with the details extracted from the page.  The table
    is left as it was. *)
Theorem check_page_compare_only env url w :
  snapshot_or_corrupt w url ->
  page_state (check_page env url false w).2 = page_state w
  /\ (forall e, (check_page env url false w).1 = Raise e <-> http_get env url = Raise e)
  /\ (forall html, http_get env url = Ok html ->
        exists r, (check_page env url false w).1 = Ok r
                  /\ old r = stored w url
                  /\ details (new r) = extract_details (lxml env html)
                  /\ checked_at (new r) = isoformat env (clock w) ++ u "Z").
Proof.
  intros _. split; [apply check_page_state|]. split.
  - intros e. destruct (http_get env url) as [html|e'] eqn:H.
    + destruct (check_page_no_save env url w html H) as (p & a & ->). simpl.
      split; discriminate.
    + rewrite (check_page_fetch_fails env url false w e' H). simpl.
      split; intros E; inversion E; reflexivity.
  - intros html H. destruct (check_page_no_save env url w html H) as (p & a & ->).
    eexists. split; [reflexivity|]. repeat split.
Qed.

Lemma check_page_compare_only_witness :
  http_get sample_env (u "http://a") = Ok (u "<p>Cena: 99 Kč</p><p>Skladem</p>")
  /\ exists r, (check_page sample_env (u "http://a") false empty_world).1 = Ok r
               /\ old r = None.
Proof.
  assert (H : http_get sample_env (u "http://a")
              = Ok (u "<p>Cena: 99 Kč</p><p>Skladem</p>"))
    by (vm_compute; reflexivity).
  split; [exact H|].
  assert (Hrow : snapshot_or_corrupt empty_world (u "http://a")) by exact I.
  destruct (proj2 (proj2 (check_page_compare_only sample_env (u "http://a")
                            empty_world Hrow)) _ H) as (r & Hr & Ho & _).
  exists r. split; [exact Hr|exact Ho].
Defined.

(** X7. A stored row that does not decode counts as no prior state: the
    check reports the single no-prior-record message, and the row stays. *)
Theorem corrupt_row_is_no_prior_record env url html w raw ts :
  http_get env url = Ok html ->
  page_state w !! url = Some {| row_snapshot := Unparseable raw; row_checked_at := ts |} ->
  exists r, (check_page env url false w).1 = Ok r
            /\ changed r = true /\ changes r = [no_prior_record] /\ old r = None
            /\ page_state (check_page env url false w).2 !! url
               = Some {| row_snapshot := Unparseable raw; row_checked_at := ts |}.
Proof.
  intros H Hrow. rewrite check_page_state.
  destruct (check_page_no_save env url w html H) as (p & a & ->).
  unfold stored. rewrite Hrow. simpl. eexists. split; [reflexivity|].
  repeat split.
Qed.

Lemma corrupt_row_is_no_prior_record_witness :
  let w := {| page_state := {[ u "http://a" :=
                {| row_snapshot := Unparseable (u "{not json");
                   row_checked_at := u "2024-01-01T00:00:00Z" |} ]};
              clock := 0; log := [] |} in
  exists r, (check_page sample_env (u "http://a") false w).1 = Ok r
            /\ changes r = [no_prior_record].
Proof.
  intros w.
  assert (H : http_get sample_env (u "http://a")
              = Ok (u "<p>Cena: 99 Kč</p><p>Skladem</p>"))
    by (vm_compute; reflexivity).
  destruct (corrupt_row_is_no_prior_record sample_env (u "http://a") _ w
              (u "{not json") (u "2024-01-01T00:00:00Z") H)
    as (r & Hr & _ & Hc & _).
  { unfold w. simpl. apply lookup_singleton_eq. }
  exists r. split; [exact Hr|exact Hc].
Defined.

(** ** More on the batch *)

Lemma logging_state line w : page_state (logging line w).2 = page_state w.
Proof. reflexivity. Qed.

Lemma bind_state {A B} (m : M A) (f : A -> M B) :
  (forall w, page_state (m w).2 = page_state w) ->
  (forall a w, page_state (f a w).2 = page_state w) ->
  forall w, page_state ((m ≫= f) w).2 = page_state w.
Proof.
  intros Hm Hf w. unfold mbind, M_bind. specialize (Hm w).
  destruct (m w) as [[a|e] w']; simpl in *; [rewrite Hf|]; exact Hm.
Qed.

Lemma human_summary_state res w : page_state (human_summary res w).2 = page_state w.
Proof.
  revert w. unfold human_summary. apply bind_state; [|intros; apply logging_state].
  destruct (changed res); [|apply logging_state].
  apply bind_state; [apply logging_state|]. intros _.
  induction (changes res) as [|c l IH]; simpl; [reflexivity|].
  apply bind_state; [apply logging_state|]. intros _. exact IH.
Qed.

(** X8. A run of the command line never changes the table of the state
    store, whatever the URLs and the flags: with [--no-save] nothing is to be
    saved, and without it every check stops at line 264 before the save. *)
Theorem main_never_writes env urls no_save json w :
  page_state (main env urls no_save json w).2 = page_state w.
Proof.
  unfold main. generalize (∅ : gmap str entry) as results. revert w.
  induction urls as [|url urls IH]; intros w results; [reflexivity|].
  rewrite main_loop_cons. unfold mbind, M_bind, mret, M_ret.
  change (logging (u "Kontrola: " ++ url) w) with (Ok tt, announced url w).
  cbv beta iota.
  pose proof (check_page_state env url (negb no_save) (announced url w)) as Hc.
  destruct (check_page env url (negb no_save) (announced url w)) as [[res|e] w1];
    simpl in Hc.
  - destruct json.
    + rewrite IH. exact Hc.
    + pose proof (human_summary_state res w1) as Hh.
      destruct (human_summary res w1) as [[[]|e] w2]; simpl in Hh.
      * rewrite IH. congruence.
      * simpl. rewrite IH. simpl. congruence.
  - simpl. rewrite IH. exact Hc.
Qed.

(** X9. The keys of the results are the URLs of the command line: each URL
    has an entry, URLs given twice share one, and there is no other key. *)
Theorem main_results_keys env urls no_save json w :
  dom (main env urls no_save json w).1 = list_to_set urls.
Proof.
  unfold main.
  assert (G : forall results w0,
            dom (main_loop env urls no_save json results w0).1
            = list_to_set urls ∪ dom results).
  { induction urls as [|url urls IH]; intros results w0; simpl list_to_set.
    - simpl. rewrite union_empty_l_L. reflexivity.
    - destruct (main_loop_step env url urls no_save json results w0) as [w' ->].
      rewrite IH, dom_insert_L.
      rewrite (assoc_L (∪)), (comm_L (∪) (list_to_set urls)). reflexivity. }
  rewrite G, dom_empty_L, union_empty_r_L. reflexivity.
Qed.

(** X10. The entry of a URL says what became of its own check, whatever
    happened to the other URLs of the batch: the error record of its
    retrieval failure when the retrieval fails; and when the page is
    retrieved, for a URL whose row, if any, holds a snapshot written by
    [save_state] or a text that does not decode, a report under [--no-save],
    the error record of line 264 otherwise. *)
Theorem main_entry_by_url env urls no_save json w url :
  url ∈ urls -> snapshot_or_corrupt w url ->
  let results := (main env urls no_save json w).1 in
  (forall e, http_get env url = Raise e ->
     results !! url = Some (ErrorRecord (exn_msg e)))
  /\ (forall html, http_get env url = Ok html ->
        if no_save then exists r, results !! url = Some (Report r)
        else results !! url = Some (ErrorRecord (exn_msg bool_not_callable))).
Proof.
  intros Hin _ results.
  destruct (proj1 (main_loop_entries env no_save json urls ∅ w url) Hin) as [w0 E].
  fold (main env urls no_save json w) in E. fold results in E. split.
  - intros e H. rewrite E, (check_page_fetch_fails env url _ w0 e H). reflexivity.
  - intros html H. rewrite E. destruct no_save; simpl negb.
    + destruct (check_page_no_save env url w0 html H) as (p & a & ->). simpl. eauto.
    + rewrite (check_page_save env url w0 html H). reflexivity.
Qed.

Lemma main_entry_by_url_witness :
  (main sample_env [u "http://a"; u "http://b"; u "http://c"] true false empty_world).1
    !! u "http://b" = Some (ErrorRecord (u "timed out"))
  /\ exists r,
       (main sample_env [u "http://a"; u "http://b"; u "http://c"] true false
          empty_world).1 !! u "http://c" = Some (Report r).
Proof.
  split.
  - refine (proj1 (main_entry_by_url sample_env _ true false empty_world
                     (u "http://b") _ _) (Exn RequestException (u "timed out")) _).
    + rewrite !elem_of_cons. auto.
    + exact I.
    + vm_compute. reflexivity.
  - refine (proj2 (main_entry_by_url sample_env _ true false empty_world
                     (u "http://c") _ _) (u "<p>Cena: 99 Kč</p><p>Skladem</p>") _).
    + rewrite !elem_of_cons. auto.
    + exact I.
    + vm_compute. reflexivity.
Defined.

(** ** More on the normalizer *)

Lemma mt_rep_unbounded {A} ic lo a s c (k : @kont A) :
  mt ic (RRep lo None a) s c k = rep (mt ic a) lo (length s) s c k.
Proof. reflexivity. Qed.

Lemma mt_group {A} ic i a s c (k : @kont A) :
  mt ic (RGroup i a) s c k = mt ic a s c (fun s' c' => k s' ((i, consumed s s') :: c')).
Proof. reflexivity. Qed.

Lemma mt_opt_skip {A} ic a s c (k : @kont A) :
  is_Some (k s c) -> is_Some (mt ic (ROpt a) s c k).
Proof. intros H. unfold ROpt. rewrite mt_rep_bounded. apply rep_zero, H. Qed.

Lemma mt_star_skip {A} ic a s c (k : @kont A) :
  is_Some (k s c) -> is_Some (mt ic (RStar a) s c k).
Proof. intros H. unfold RStar. rewrite mt_rep_unbounded. apply rep_zero, H. Qed.

(** One digit is enough for [\d{1,3}]. *)
Lemma mt_digits_first {A} ic d rest c (k : @kont A) :
  is_digit d = true -> is_Some (k rest c) ->
  is_Some (mt ic (RRep 1 (Some 3%nat) (RSet CDigit)) (d :: rest) c k).
Proof.
  intros Hd Hk. rewrite mt_rep_bounded.
  change (is_Some
    match mt ic (RSet CDigit) (d :: rest) c
            (fun s' c' => rep (mt ic (RSet CDigit)) 0 2 s' c' k) with
    | Some r => Some r
    | None => None
    end).
  assert (E : mt ic (RSet CDigit) (d :: rest) c
                (fun s' c' => rep (mt ic (RSet CDigit)) 0 2 s' c' k)
              = rep (mt ic (RSet CDigit)) 0 2 rest c k).
  { cbn [mt]. rewrite cset_mem_digit, Hd. reflexivity. }
  rewrite E. destruct (rep_zero (mt ic (RSet CDigit)) 2 rest c k Hk) as [r ->].
  eauto.
Qed.

(** The price pattern matches at every digit. *)
Lemma price_pattern_at_digit d rest :
  is_digit d = true -> is_Some (match_at false price_pattern (d :: rest)).
Proof.
  intros Hd. unfold match_at, price_pattern, grouped_number.
  rewrite mt_seq. apply mt_opt_skip.
  rewrite mt_seq. apply mt_star_skip.
  rewrite mt_seq, mt_group, mt_seq. apply mt_opt_skip.
  rewrite mt_seq. apply mt_digits_first; [assumption|].
  rewrite mt_seq. apply mt_star_skip. apply mt_opt_skip.
  rewrite mt_seq. apply mt_star_skip. apply mt_opt_skip. eauto.
Qed.

Lemma digit_split t :
  ~ digit_free t -> exists p d rest, t = p ++ d :: rest /\ is_digit d = true.
Proof.
  induction t as [|x t IH]; intros H.
  - exfalso. apply H. constructor.
  - destruct (is_digit x) eqn:E.
    + exists [], x, t. auto.
    + destruct IH as (p & d & rest & -> & Hd).
      { intros Hf. apply H. constructor; assumption. }
      exists (x :: p), d, rest. auto.
Qed.

Lemma price_pattern_found t :
  ~ digit_free t -> is_Some (search false price_pattern t).
Proof.
  intros H. destruct (digit_split t H) as (p & d & rest & -> & Hd).
  apply search_is_Some, price_pattern_at_digit, Hd.
Qed.

(** X11. The price pattern finds a match exactly in the texts that hold a
    decimal digit.  The loose pattern of line 91 needs a digit too, so it
    never finds anything the price pattern has missed: lines 91-94 are only
    ever left through [return t]. *)
Theorem price_pattern_iff_digit (t : str) :
  (is_Some (search false price_pattern t) <-> ~ digit_free t)
  /\ (search false price_pattern t = None ->
      search false loose_number_pattern t = None).
Proof.
  split; [split|].
  - intros [m Hm] Hf. rewrite search_needs_digit in Hm by (reflexivity || assumption).
    discriminate.
  - apply price_pattern_found.
  - intros Hn. apply search_needs_digit; [reflexivity|].
    destruct (decide (digit_free t)) as [Hf|Hf]; [assumption|].
    destruct (price_pattern_found t Hf) as [m Hm]. congruence.
Qed.

Lemma price_pattern_iff_digit_witness :
  search false loose_number_pattern (u "na dotaz") = None.
Proof.
  apply (proj2 (price_pattern_iff_digit (u "na dotaz"))). vm_compute. reflexivity.
Defined.

Lemma space_not_digit c : is_space c = true -> is_digit c = false.
Proof.
  intros H. apply is_space_spaces in H.
  assert (G : forallb (fun x => negb (is_digit x)) spaces = true)
    by (vm_compute; reflexivity).
  rewrite List.forallb_forall in G. apply G in H.
  destruct (is_digit c); [discriminate|reflexivity].
Qed.

Lemma digit_not_space c : is_digit c = true -> is_space c = false.
Proof.
  intros H. destruct (is_space c) eqn:E; [|reflexivity].
  apply space_not_digit in E. congruence.
Qed.

Lemma lstrip_spaces s : Forall (fun c => is_space c = true) s -> lstrip s = [].
Proof.
  induction 1 as [|c s Hc _ IH]; simpl; [reflexivity|]. rewrite Hc. exact IH.
Qed.

Lemma normalize_price_digit_free text :
  text <> [] -> digit_free text ->
  normalize_price (Some text) = Ok (Some (strip text)).
Proof.
  intros Hne Hd. destruct text as [|x t]; [congruence|]. simpl.
  rewrite !search_needs_digit by (reflexivity || apply digit_free_strip, Hd).
  reflexivity.
Qed.

(** X12. A text that is not empty but holds white space only is not taken
    for an absent price: the normalizer returns the empty string, not [None]. *)
Theorem normalize_price_blank (text : str) :
  text <> [] -> Forall (fun c => is_space c = true) text ->
  normalize_price (Some text) = Ok (Some []).
Proof.
  intros Hne Hs. rewrite normalize_price_digit_free; [|assumption|].
  - unfold strip. rewrite (lstrip_spaces text Hs). reflexivity.
  - eapply Forall_impl; [exact Hs|]. intros c. apply space_not_digit.
Qed.

Lemma normalize_price_blank_witness :
  normalize_price (Some [32; 10; 160]) = Ok (Some []).
Proof.
  apply normalize_price_blank; [discriminate|].
  repeat constructor.
Defined.

Section MatcherSound.
Context {A : Type}.
Variable ic : bool.

Lemma rep_sound (P : str -> Prop) (step : str -> caps -> @kont A -> option A) :
  (forall s c k x, step s c k = Some x ->
     exists w s' c', s = w ++ s' /\ P w /\ k s' c' = Some x) ->
  forall n lo s c k x,
    rep step lo n s c k = Some x ->
    exists ws s' c', s = concat ws ++ s' /\ Forall P ws
                     /\ (lo <= length ws)%nat /\ (length ws <= n)%nat
                     /\ k s' c' = Some x.
Proof.
  intros Hstep n. induction n as [|n IH]; intros lo s c k x H; simpl in H.
  - destruct lo; [|discriminate]. exists [], s, c. repeat split; auto.
  - destruct (step s c _) as [r|] eqn:E.
    + inversion H; subst r. apply Hstep in E.
      destruct E as (w & s1 & c1 & -> & Hw & E).
      apply IH in E. destruct E as (ws & s2 & c2 & -> & Hws & Hlo & Hn & E).
      exists (w :: ws), s2, c2. simpl. rewrite <- app_assoc.
      repeat split; auto; simpl; lia.
    + destruct lo; [|discriminate]. exists [], s, c. repeat split; auto.
      simpl. lia.
Qed.

(** What the matcher consumes before it enters its continuation is a text
    of the pattern. *)
Lemma mt_sound r : forall s c (k : @kont A) x,
  mt ic r s c k = Some x ->
  exists w s' c', s = w ++ s' /\ denotes ic r w /\ k s' c' = Some x.
Proof.
  induction r as [cs| |a IHa b IHb|a IHa b IHb|lo hi a IHa|i a IHa];
    intros s c k x H; simpl in H.
  - destruct s as [|y s]; [discriminate|].
    destruct (cset_mem ic cs y) eqn:E; [|discriminate].
    exists [y], s, c. simpl. eauto.
  - exists [], s, c. simpl. auto.
  - apply IHa in H. destruct H as (w1 & s1 & c1 & -> & H1 & H).
    apply IHb in H. destruct H as (w2 & s2 & c2 & -> & H2 & H).
    exists (w1 ++ w2), s2, c2. rewrite <- app_assoc. simpl. eauto 10.
  - destruct (mt ic a s c k) eqn:E.
    + inversion H; subst. apply IHa in E.
      destruct E as (w & s' & c' & -> & Hw & E). exists w, s', c'. simpl. auto.
    + apply IHb in H. destruct H as (w & s' & c' & -> & Hw & H).
      exists w, s', c'. simpl. auto.
  - apply (rep_sound (denotes ic a)) in H; [|exact IHa].
    destruct H as (ws & s' & c' & -> & Hws & Hlo & Hn & H).
    exists (concat ws), s', c'. split; [reflexivity|]. split; [|assumption].
    simpl. exists ws. repeat split; auto. destruct hi; [assumption|exact I].
  - apply IHa in H. destruct H as (w & s' & c' & -> & Hw & H).
    exists w, s', (((i, consumed (w ++ s') s')) :: c'). simpl. auto.
Qed.

(** The invariant lemma of the matcher, for a property that only the
    groups of the pattern have to preserve. *)
Variable Inv : str -> caps -> Prop.
Hypothesis Inv_tail : forall x s c, Inv (x :: s) c -> Inv s c.

Lemma rep_inv_groups (step : str -> caps -> @kont A -> option A) :
  (forall s c k x, step s c k = Some x -> Inv s c ->
     exists s' c', Inv s' c' /\ k s' c' = Some x) ->
  forall n lo s c k x,
    rep step lo n s c k = Some x -> Inv s c ->
    exists s' c', Inv s' c' /\ k s' c' = Some x.
Proof.
  intros Hstep n. induction n as [|n IH]; intros lo s c k x H HI; simpl in H.
  - destruct lo; [|discriminate]. exists s, c. auto.
  - destruct (step s c _) as [r|] eqn:E.
    + inversion H; subst r. apply Hstep in E; [|assumption].
      destruct E as (s' & c' & HI' & E). eapply IH; eauto.
    + destruct lo; [|discriminate]. exists s, c. auto.
Qed.

Lemma mt_inv_groups r :
  (forall j s c v, In j (group_ids r) -> Inv s c -> Inv s ((j, v) :: c)) ->
  forall s c (k : @kont A) x,
    mt ic r s c k = Some x -> Inv s c ->
    exists s' c', Inv s' c' /\ k s' c' = Some x.
Proof.
  induction r as [cs| |a IHa b IHb|a IHa b IHb|lo hi a IHa|i a IHa];
    intros Hb s c k x H HI; simpl in H, Hb.
  - destruct s as [|y s]; [discriminate|].
    destruct (cset_mem ic cs y); [|discriminate]. exists s, c. eauto.
  - exists s, c. auto.
  - apply IHa in H; [| |assumption].
    + destruct H as (s' & c' & HI' & H). eapply IHb; eauto.
      intros j s0 c0 v Hj. apply Hb, in_or_app. auto.
    + intros j s0 c0 v Hj. apply Hb, in_or_app. auto.
  - destruct (mt ic a s c k) eqn:E.
    + inversion H; subst. eapply IHa; eauto.
      intros j s0 c0 v Hj. apply Hb, in_or_app. auto.
    + eapply IHb; eauto. intros j s0 c0 v Hj. apply Hb, in_or_app. auto.
  - eapply rep_inv_groups; eauto.
  - apply IHa in H; [| |assumption].
    + destruct H as (s' & c' & HI' & H).
      exists s', ((i, consumed s s') :: c'). split; [|assumption].
      apply Hb; [left; reflexivity|assumption].
    + intros j s0 c0 v Hj. apply Hb. right. assumption.
Qed.
End MatcherSound.

(** Group 2 of a match of the price pattern is a signed number with
    thousands separators. *)
Lemma price_pattern_group2 t m :
  search false price_pattern t = Some m ->
  exists g, group_of m 2 = Ok g
            /\ denotes false (RSeq (ROpt (RSet (COneOf [43; 45]))) grouped_number) g.
Proof.
  intros H. apply search_Some in H as (p & s & _ & H).
  unfold match_at, price_pattern in H.
  rewrite mt_seq in H.
  apply (mt_inv false (fun _ _ => True)) in H; auto.
  destruct H as (s1 & c1 & _ & H). rewrite mt_seq in H.
  apply (mt_inv false (fun _ _ => True)) in H; auto.
  destruct H as (s2 & c2 & _ & H). rewrite mt_seq, mt_group in H.
  apply mt_sound in H. destruct H as (g & s3 & c3 & -> & Hg & H).
  rewrite consumed_app in H.
  apply (mt_inv_groups false (fun _ c => group c 2 = Some g)) in H.
  - destruct H as (s4 & c4 & Hc & H). inversion H; subst m.
    exists g. split; [|exact Hg]. unfold group_of. simpl. rewrite Hc. reflexivity.
  - auto.
  - intros j s0 c0 v Hj Hc. simpl in Hj.
    destruct Hj as [<-|[]]. simpl. exact Hc.
  - simpl. reflexivity.
Qed.

Lemma oneof_mem l x : cset_mem false (COneOf l) x = true -> In x l.
Proof.
  unfold COneOf, cset_mem. simpl xorb. induction l as [|c l IH]; simpl.
  - discriminate.
  - unfold char_eq. destruct (N.eqb_spec x c); simpl; auto.
Qed.

Lemma digit_mem x : cset_mem false CDigit x = true -> is_digit x = true.
Proof.
  unfold CDigit, cset_mem. simpl. rewrite orb_false_r. auto.
Qed.

Lemma denotes_digit_rep lo hi w :
  denotes false (RRep lo hi (RSet CDigit)) w ->
  all_digits w /\ (lo <= length w)%nat.
Proof.
  cbn [denotes]. intros (ws & -> & Hws & Hlo & _).
  assert (G : all_digits (concat ws) /\ length (concat ws) = length ws).
  { clear Hlo. induction Hws as [|w ws (x & -> & Hx) _ [IH1 IH2]]; simpl.
    - split; [constructor|reflexivity].
    - split; [constructor; [apply digit_mem, Hx|exact IH1]|rewrite IH2; reflexivity]. }
  destruct G as [G1 G2]. split; [exact G1|lia].
Qed.

Lemma num_norm_app a b : num_norm (a ++ b) = num_norm a ++ num_norm b.
Proof. unfold num_norm, replace. rewrite !flat_map_app. reflexivity. Qed.

(** A digit differs from every character that is none. *)
Lemma digit_neq x c : is_digit x = true -> is_digit c = false -> (x =? c) = false.
Proof. intros Hx Hc. apply N.eqb_neq. intros ->. congruence. Qed.

Lemma num_norm_digit x : is_digit x = true -> num_norm [x] = [x].
Proof.
  intros H. unfold num_norm, replace. simpl.
  rewrite (digit_neq x 160 H) by reflexivity. simpl.
  rewrite (digit_neq x 32 H) by reflexivity. simpl.
  rewrite (digit_neq x 44 H) by reflexivity. reflexivity.
Qed.

Lemma num_norm_digits d : all_digits d -> num_norm d = d.
Proof.
  induction 1 as [|x d Hx _ IH]; [reflexivity|].
  change (x :: d) with ([x] ++ d). rewrite num_norm_app, num_norm_digit, IH by assumption.
  reflexivity.
Qed.

Lemma all_digits_app a b : all_digits a -> all_digits b -> all_digits (a ++ b).
Proof. apply Forall_app_2. Qed.

Lemma denotes_opt_sign w :
  denotes false (ROpt (RSet (COneOf [43; 45]))) w -> w = [] \/ w = [43] \/ w = [45].
Proof.
  unfold ROpt. cbn [denotes]. intros (ws & -> & Hws & _ & Hhi).
  destruct Hws as [|w ws (x & -> & Hx) Hws]; [auto|].
  destruct Hws; [|simpl in Hhi; lia]. simpl.
  apply oneof_mem in Hx. destruct Hx as [<-|[<-|[]]]; auto.
Qed.

Lemma denotes_thousands w :
  denotes false
    (RStar (RSeq (RSet (COneOf [32; 160])) (RRep 3 (Some 3%nat) (RSet CDigit)))) w ->
  all_digits (num_norm w).
Proof.
  unfold RStar. cbn [denotes]. intros (ws & -> & Hws & _).
  induction Hws as [|w ws Hw _ IH]; simpl.
  - constructor.
  - rewrite num_norm_app. apply all_digits_app; [|exact IH].
    destruct Hw as (w1 & w2 & -> & (x & -> & Hx) & Hd).
    apply (denotes_digit_rep 3 (Some 3%nat)) in Hd. destruct Hd as [Hd _].
    rewrite num_norm_app, (num_norm_digits w2 Hd).
    apply oneof_mem in Hx. destruct Hx as [<-|[<-|[]]]; exact Hd.
Qed.

Lemma denotes_fraction w :
  denotes false (ROpt (RSeq (RSet (COneOf [46; 44])) (RPlus (RSet CDigit)))) w ->
  num_norm w = [] \/ exists d, num_norm w = 46 :: d /\ d <> [] /\ all_digits d.
Proof.
  unfold ROpt, RPlus. cbn [denotes]. intros (ws & -> & Hws & _ & Hhi).
  destruct Hws as [|w ws Hw Hws]; [left; reflexivity|].
  destruct Hws; [|simpl in Hhi; lia]. simpl. rewrite app_nil_r.
  destruct Hw as (w1 & w2 & -> & (x & -> & Hx) & Hd).
  change (denotes false (RRep 1 None (RSet CDigit)) w2) in Hd.
  apply denotes_digit_rep in Hd. destruct Hd as [Hd Hlen].
  right. exists w2. rewrite num_norm_app, (num_norm_digits w2 Hd).
  split; [|split; [|exact Hd]].
  - apply oneof_mem in Hx. destruct Hx as [<-|[<-|[]]]; reflexivity.
  - destruct w2; [simpl in Hlen; lia|discriminate].
Qed.

(** The normalized candidate of the price pattern: a sign or none, digits,
    and a fraction or none. *)
Lemma candidate_shape g :
  denotes false (RSeq (ROpt (RSet (COneOf [43; 45]))) grouped_number) g ->
  exists sg d f,
    num_norm g = sg ++ d ++ f
    /\ (sg = [] \/ sg = [43] \/ sg = [45])
    /\ d <> [] /\ all_digits d
    /\ (f = [] \/ exists d2, f = 46 :: d2 /\ d2 <> [] /\ all_digits d2).
Proof.
  unfold grouped_number.
  intros (w1 & w2 & -> & Hs & (w3 & w4 & -> & Hd & (w5 & w6 & -> & Ht & Hf))).
  apply denotes_opt_sign in Hs. apply denotes_digit_rep in Hd.
  apply denotes_thousands in Ht. apply denotes_fraction in Hf.
  destruct Hd as [Hd Hlen].
  exists w1, (w3 ++ num_norm w5), (num_norm w6).
  rewrite !num_norm_app, (num_norm_digits w3 Hd), <- !app_assoc.
  split; [|split; [exact Hs|split; [|split; [|exact Hf]]]].
  - f_equal. destruct Hs as [-> | [-> | ->]]; reflexivity.
  - destruct w3; [simpl in Hlen; lia|discriminate].
  - apply all_digits_app; assumption.
Qed.

Lemma lstrip_solid s : starts_solid s -> lstrip s = s.
Proof. destruct s as [|x s]; simpl; [tauto|]. intros ->. reflexivity. Qed.

Lemma strip_solid s : starts_solid s -> starts_solid (rev s) -> strip s = s.
Proof.
  intros H1 H2. unfold strip, rstrip.
  rewrite (lstrip_solid s H1), (lstrip_solid _ H2). apply rev_involutive.
Qed.

(** A run of ASCII digits, as the numeral grammar reads them. *)
Lemma digits_tail_app d : Forall (fun c => Float.ascii_digit c = true) d ->
  forall v n r, exists v' n', Float.digits_tail v n (d ++ r) = Float.digits_tail v' n' r.
Proof.
  induction 1 as [|x d Hx _ IH]; intros v n r; simpl.
  - eauto.
  - rewrite Hx. apply IH.
Qed.

Lemma digitpart_digits d r :
  d <> [] -> Forall (fun c => Float.ascii_digit c = true) d ->
  (r = [] \/ exists r', r = 46 :: r') ->
  exists v n, Float.digitpart (d ++ r) = Some (v, n, r).
Proof.
  intros Hne Hd Hr. destruct Hd as [|x d Hx Hd]; [congruence|].
  simpl. rewrite Hx.
  destruct (digits_tail_app d Hd (Float.digit_value x) 1 r) as (v & n & ->).
  exists v, n. f_equal. destruct Hr as [->|[r' ->]]; reflexivity.
Qed.

Lemma number_plain d f :
  d <> [] -> Forall (fun c => Float.ascii_digit c = true) d ->
  (f = [] \/ exists d2, f = 46 :: d2 /\ d2 <> []
                        /\ Forall (fun c => Float.ascii_digit c = true) d2) ->
  exists m e, Float.number (d ++ f) = Some (m, e, []).
Proof.
  intros Hne Hd Hf. unfold Float.number.
  destruct (digitpart_digits d f Hne Hd) as (v & n & ->).
  { destruct Hf as [->|(d2 & -> & _)]; eauto. }
  destruct Hf as [->|(d2 & -> & Hne2 & Hd2)]; [eauto|].
  destruct (digitpart_digits d2 [] Hne2 Hd2) as (v2 & n2 & E); [auto|].
  rewrite app_nil_r in E. rewrite E. eauto.
Qed.

Lemma eqb_head_neq x y (s t : str) : x <> y -> Str.eqb (x :: s) (y :: t) = false.
Proof. intros H. apply eqb_neq. congruence. Qed.

Lemma ascii_digit_bounds x : Float.ascii_digit x = true -> 48 <= x /\ x <= 57.
Proof. unfold Float.ascii_digit. rewrite andb_true_iff, !N.leb_le. auto. Qed.

Lemma skip_spaces_solid s :
  match s with x :: _ => Float.ascii_space x = false | [] => False end ->
  Float.skip_spaces s = s.
Proof. destruct s as [|x s]; simpl; [tauto|]. intros ->. reflexivity. Qed.

(** The parser reads every plain ASCII numeral. *)
Lemma parse_plain sg d f :
  (sg = [] \/ sg = [43] \/ sg = [45]) ->
  d <> [] -> Forall (fun c => Float.ascii_digit c = true) d ->
  (f = [] \/ exists d2, f = 46 :: d2 /\ d2 <> []
                        /\ Forall (fun c => Float.ascii_digit c = true) d2) ->
  exists v, Float.parse (sg ++ d ++ f) = Ok v.
Proof.
  intros Hs Hne Hd Hf.
  assert (Hds : forall c, Float.ascii_digit c = true -> Float.ascii_space c = false).
  { intros c Hc. apply ascii_digit_bounds in Hc. unfold Float.ascii_space.
    rewrite orb_false_iff, andb_false_iff, !N.leb_gt, N.eqb_neq. lia. }
  assert (Hall : Forall (fun c => Float.ascii_space c = false) (sg ++ d ++ f)).
  { apply Forall_app_2; [destruct Hs as [-> | [-> | ->]]; repeat constructor|].
    apply Forall_app_2.
    - eapply Forall_impl; [exact Hd|]. exact Hds.
    - destruct Hf as [->|(d2 & -> & _ & Hd2)]; constructor; [reflexivity|].
      eapply Forall_impl; [exact Hd2|]. exact Hds. }
  assert (Hnz : sg ++ d ++ f <> []).
  { destruct d; [congruence|]. destruct sg; discriminate. }
  assert (Htrim : Float.trim (sg ++ d ++ f) = sg ++ d ++ f).
  { unfold Float.trim. rewrite (skip_spaces_solid (sg ++ d ++ f)).
    - rewrite skip_spaces_solid; [apply rev_involutive|].
      apply List.Forall_rev in Hall.
      destruct (rev (sg ++ d ++ f)) as [|x s] eqn:E.
      + apply (f_equal (@length N)) in E. rewrite length_rev in E.
        destruct (sg ++ d ++ f); [congruence|discriminate].
      + inversion Hall; assumption.
    - destruct (sg ++ d ++ f) as [|x s]; [congruence|].
      inversion Hall; assumption. }
  destruct d as [|x d]; [congruence|].
  pose proof (ascii_digit_bounds x ltac:(inversion Hd; assumption)) as [Hx1 Hx2].
  assert (Hsign : exists neg, Float.sign (sg ++ (x :: d) ++ f) = (neg, (x :: d) ++ f)).
  { destruct Hs as [-> | [-> | ->]]; simpl; [|eauto..].
    destruct x as [|p]; [lia|].
    do 6 (destruct p as [p|p|]; try lia; eauto). }
  destruct Hsign as [neg Hsign].
  destruct (number_plain (x :: d) f Hne Hd Hf) as (m & e & Hnum).
  unfold Float.parse. rewrite Htrim, Hsign.
  assert (Hl : Float.ascii_lower x = x).
  { unfold Float.ascii_lower. destruct (N.leb_spec 65 x); [lia|]. reflexivity. }
  change (List.map Float.ascii_lower ((x :: d) ++ f))
    with (Float.ascii_lower x :: List.map Float.ascii_lower (d ++ f)).
  rewrite Hl.
  change (u "inf") with [105; 110; 102].
  change (u "infinity") with [105; 110; 102; 105; 110; 105; 116; 121].
  change (u "nan") with [110; 97; 110].
  rewrite !eqb_head_neq by lia. simpl orb. cbv iota.
  rewrite Hnum. eauto.
Qed.

Lemma is_digit_decimal x : is_digit x = true -> exists d, decimal x = Some d /\ d < 10.
Proof.
  unfold is_digit, decimal. intros H.
  apply List.existsb_exists in H as (r & Hin & Hr).
  destruct (List.find (in_range x) digit_ranges) as [r'|] eqn:E.
  - eexists. split; [reflexivity|]. apply N.mod_lt. discriminate.
  - eapply List.find_none in E; [|exact Hin]. congruence.
Qed.

(** Below 127 the decimal digits are the ASCII ones. *)
Lemma is_digit_ascii x : is_digit x = true -> x < 127 -> Float.ascii_digit x = true.
Proof.
  unfold is_digit. intros H Hx. apply List.existsb_exists in H as (r & Hin & Hr).
  assert (G : forallb (fun r => (127 <=? r.1) || ((r.1 =? 48) && (r.2 =? 57)))
                digit_ranges = true) by (vm_compute; reflexivity).
  rewrite List.forallb_forall in G. apply G in Hin.
  unfold in_range in Hr. apply andb_true_iff in Hr as [H1 H2].
  apply N.leb_le in H1, H2. apply orb_true_iff in Hin as [Hin|Hin].
  - apply N.leb_le in Hin. lia.
  - apply andb_true_iff in Hin as [E1 E2]. apply N.eqb_eq in E1, E2.
    unfold Float.ascii_digit. rewrite andb_true_iff, !N.leb_le. lia.
Qed.

(** The ASCII copy of a decimal digit is an ASCII digit. *)
Lemma ascii_of_digit x :
  is_digit x = true ->
  exists a, Float.ascii_of x = Some a /\ Float.ascii_digit a = true.
Proof.
  intros H. unfold Float.ascii_of. destruct (N.ltb_spec x 127) as [Hlt|Hge].
  - exists x. split; [reflexivity|]. apply is_digit_ascii; assumption.
  - rewrite (digit_not_space x H).
    destruct (is_digit_decimal x H) as (d & -> & Hd). exists (48 + d).
    split; [reflexivity|]. unfold Float.ascii_digit.
    rewrite andb_true_iff, !N.leb_le. lia.
Qed.

Lemma to_ascii_digits d : all_digits d -> forall r,
  exists d', Float.to_ascii (d ++ r) = d' ++ Float.to_ascii r
             /\ Forall (fun c => Float.ascii_digit c = true) d'
             /\ (d <> [] -> d' <> []).
Proof.
  induction 1 as [|x d Hx _ IH]; intros r.
  - exists []. split; [reflexivity|]. split; [constructor|congruence].
  - destruct (ascii_of_digit x Hx) as (a & Ha & Hd).
    destruct (IH r) as (d' & E & Hd' & _).
    exists (a :: d'). simpl. rewrite Ha, E.
    split; [reflexivity|]. split; [constructor; assumption|discriminate].
Qed.

(** [float] reads every plain decimal numeral, whatever the script of its
    digits. *)
Lemma of_str_plain sg d f :
  (sg = [] \/ sg = [43] \/ sg = [45]) ->
  d <> [] -> all_digits d ->
  (f = [] \/ exists d2, f = 46 :: d2 /\ d2 <> [] /\ all_digits d2) ->
  exists v, Float.of_str (sg ++ d ++ f) = Ok v.
Proof.
  intros Hs Hne Hd Hf. unfold Float.of_str.
  assert (E : exists d' f',
    Float.to_ascii (sg ++ d ++ f) = sg ++ d' ++ f'
    /\ d' <> [] /\ Forall (fun c => Float.ascii_digit c = true) d'
    /\ (f' = [] \/ exists d2, f' = 46 :: d2 /\ d2 <> []
                              /\ Forall (fun c => Float.ascii_digit c = true) d2)).
  { destruct (to_ascii_digits d Hd f) as (d' & E & Hd' & Hne').
    assert (F : exists f', Float.to_ascii f = f'
      /\ (f' = [] \/ exists d2, f' = 46 :: d2 /\ d2 <> []
                                /\ Forall (fun c => Float.ascii_digit c = true) d2)).
    { destruct Hf as [->|(d2 & -> & Hne2 & Hd2)].
      - exists []. split; [reflexivity|left; reflexivity].
      - destruct (to_ascii_digits d2 Hd2 []) as (d2' & E2 & Hd2' & Hne2').
        rewrite app_nil_r in E2. simpl in E2. rewrite app_nil_r in E2.
        exists (46 :: d2'). split.
        + change (Float.to_ascii (46 :: d2)) with (46 :: Float.to_ascii d2).
          rewrite E2. reflexivity.
        + right. exists d2'. auto. }
    destruct F as (f' & Ef & Hf').
    exists d', f'. split; [|auto].
    rewrite <- Ef, <- E.
    destruct Hs as [-> | [-> | ->]]; reflexivity. }
  destruct E as (d' & f' & -> & Hne' & Hd' & Hf').
  apply parse_plain; assumption.
Qed.

(** X13. A text that holds a decimal digit is always turned into a number
    with two fraction digits: the candidate of the price pattern always
    parses, so the [except] branch of line 101 is never taken. *)
Theorem normalize_price_number (text : str) :
  ~ digit_free text ->
  exists v, normalize_price (Some text) = Ok (Some (Float.format_2f false v)).
Proof.
  intros Hd. destruct (digit_split text Hd) as (p & x & rest & -> & Hx).
  assert (Hstrip : ~ digit_free (strip (p ++ x :: rest))).
  { destruct (strip_keep p [x] rest) as (a & b & E).
    - simpl. apply digit_not_space, Hx.
    - simpl. apply digit_not_space, Hx.
    - simpl in E. rewrite E. intros Hf. apply Forall_app in Hf as [_ Hf].
      inversion Hf; congruence. }
  destruct (price_pattern_found _ Hstrip) as [m Hm].
  destruct (price_pattern_group2 _ m Hm) as (g & Hg & Hden).
  destruct (candidate_shape g Hden) as (sg & d & f & E & Hs & Hne & Hdig & Hf).
  destruct (of_str_plain sg d f Hs Hne Hdig Hf) as [v Hv].
  exists v. unfold normalize_price.
  destruct (p ++ x :: rest) as [|y t] eqn:Et;
    [destruct p; discriminate|].
  rewrite Hm. rewrite Hg. simpl.
  unfold price_of_candidate. rewrite E, Hv. reflexivity.
Qed.

Lemma normalize_price_number_witness :
  exists v, normalize_price (Some (u "od 1 299,90 Kč"))
            = Ok (Some (Float.format_2f false v)).
Proof.
  apply normalize_price_number. intros H.
  apply Forall_forall with (x := 49) in H; [discriminate|].
  vm_compute. right. right. right. left.
Defined.

(** ** More on the extractors *)

(** X14. Neither the price extractor nor the availability extractor raises,
    whatever the document: group 2 of the [Dostupnost] pattern and of the
    price pattern is bound in every match. *)
Theorem extractors_never_raise (soup : node) :
  (exists p, extract_price soup = Ok p)
  /\ (exists a, extract_availability soup = Ok a).
Proof.
  split; [apply extract_price_total|apply extract_availability_total].
Qed.

Lemma find_first {A} (f : A -> bool) pre x post :
  f x = true -> (forall y, In y pre -> f y = false) ->
  List.find f (pre ++ x :: post) = Some x.
Proof.
  intros Hx. induction pre as [|y pre IH]; intros Hpre; simpl.
  - rewrite Hx. reflexivity.
  - rewrite (Hpre y) by (left; reflexivity). apply IH.
    intros z Hz. apply Hpre. right. assumption.
Qed.

Lemma price_selectors_marker n :
  List.existsb (fun sl => sel_match sl n)
    [AttrEq (u "itemprop") (u "price");
     TagAttrEq (u "meta") (u "itemprop") (u "price")]
  = price_marker n.
Proof.
  unfold price_marker. cbn [existsb]. rewrite orb_false_r.
  destruct (sel_match (AttrEq _ _) n) eqn:E; [reflexivity|]. simpl.
  unfold sel_match in *. destruct (is_tag n); [|reflexivity]. simpl in *.
  rewrite E. apply andb_false_r.
Qed.

(** X15. The first element of the document, in document order, that carries
    the price marker decides the price, whatever follows it (another marker,
    an element with a price class, a price in the text): its [content] when
    it is a [meta], its text otherwise.  A [meta] without [content] gives no
    price at all. *)
Theorem extract_price_first_marker soup pre el post :
  descendants soup = pre ++ el :: post ->
  price_marker el = true ->
  (forall n, In n pre -> price_marker n = false) ->
  extract_price soup =
    (if named (u "meta") el
     then normalize_price (get (u "content") el)
     else normalize_price (Some (get_text (u " ") el)))
  /\ (named (u "meta") el = true -> get (u "content") el = None ->
      extract_price soup = Ok None).
Proof.
  intros Hdoc Hel Hpre.
  assert (E : select_one [AttrEq (u "itemprop") (u "price");
                          TagAttrEq (u "meta") (u "itemprop") (u "price")] soup
              = Some el).
  { unfold select_one. rewrite Hdoc. apply find_first.
    - rewrite price_selectors_marker. exact Hel.
    - intros n Hn. rewrite price_selectors_marker. apply Hpre, Hn. }
  unfold extract_price. rewrite E. split; [reflexivity|].
  intros Hm Hc. rewrite Hm, Hc. reflexivity.
Qed.

Lemma extract_price_first_marker_witness :
  extract_price page_two_prices = Ok (Some (u "1299.00"))
  /\ extract_price page_meta_without_content = Ok None.
Proof.
  split.
  - destruct (extract_price_first_marker page_two_prices
       [Tag (u "html") []
          [Tag (u "body") []
             [Tag (u "span") [(u "itemprop", u "price")] [Text (u "1 299 Kč")];
              Tag (u "b") [(u "class", u "price")] [Text (u "999 Kč")]]];
        Tag (u "body") []
          [Tag (u "span") [(u "itemprop", u "price")] [Text (u "1 299 Kč")];
           Tag (u "b") [(u "class", u "price")] [Text (u "999 Kč")]]]
       (Tag (u "span") [(u "itemprop", u "price")] [Text (u "1 299 Kč")])
       [Text (u "1 299 Kč");
        Tag (u "b") [(u "class", u "price")] [Text (u "999 Kč")];
        Text (u "999 Kč")]
       eq_refl eq_refl) as [H _].
    + intros n [<-|[<-|[]]]; vm_compute; reflexivity.
    + rewrite H. vm_compute. reflexivity.
  - destruct (extract_price_first_marker page_meta_without_content
       [Tag (u "html") []
          [Tag (u "head") [] [Tag (u "meta") [(u "itemprop", u "price")] []];
           Tag (u "body") [] [Tag (u "p") [] [Text (u "Cena 999 Kč")]]];
        Tag (u "head") [] [Tag (u "meta") [(u "itemprop", u "price")] []]]
       (Tag (u "meta") [(u "itemprop", u "price")] [])
       [Tag (u "body") [] [Tag (u "p") [] [Text (u "Cena 999 Kč")]];
        Tag (u "p") [] [Text (u "Cena 999 Kč")];
        Text (u "Cena 999 Kč")]
       eq_refl eq_refl) as [_ H].
    + intros n [<-|[<-|[]]]; vm_compute; reflexivity.
    + apply H; vm_compute; reflexivity.
Defined.

(** The long s is an s to the keyword search. *)
Example extract_availability_long_s :
  extract_availability page_long_s = Ok (Some (u "zboží ſkladem")).
Proof. vm_compute. reflexivity. Qed.

(** X16. The availability is null only for a document without an element
    marked or named for availability, without the label [Dostupnost] followed
    by something on its line, and without any of the stock keywords. *)
Theorem extract_availability_None soup :
  extract_availability soup = Ok None <->
    select_one [AttrEq (u "itemprop") (u "availability");
                AttrHas (u "class") (u "availability");
                AttrHas (u "id") (u "availability")] soup = None
    /\ search true dostupnost_pattern (get_text [10] soup) = None
    /\ forall kw, In kw keywords -> search true (RLit kw) (get_text [10] soup) = None.
Proof.
  unfold extract_availability.
  destruct (select_one _ soup) as [el|].
  - split; [discriminate|]. intros [H _]. discriminate.
  - destruct (search true dostupnost_pattern _) as [m|] eqn:E.
    + destruct (search_group true 2 dostupnost_pattern _ m eq_refl E) as [g ->].
      simpl. split; [discriminate|]. intros (_ & H & _). discriminate.
    + rewrite <- keyword_step_None. split.
      * intros H. inversion H as [H']. rewrite H'. auto.
      * intros (_ & _ & ->). reflexivity.
Qed.

Lemma for_each_continue {A} (l : list A) (body : A -> list str -> flow) details :
  (forall x, In x l -> body x details = Continue details) ->
  for_each l body details = Continue details.
Proof.
  induction l as [|x l IH]; intros H; simpl; [reflexivity|].
  rewrite (H x) by (left; reflexivity). simpl. apply IH.
  intros y Hy. apply H. right. assumption.
Qed.

(** The text of a script is no part of the page text, but it is a string of
    the document: [parameters] in a script sends the details to the list
    that follows it. *)
Example extract_details_script :
  get_text (u " ") page_script_parameters = u "x x"
  /\ get_text (u " ") (Tag (u "script") [] [Special Script (u "var parameters = 1;")])
     = u "var parameters = 1;"
  /\ List.map here (find_strings true spec_pattern page_script_parameters)
     = [Special Script (u "var parameters = 1;")]
  /\ extract_details page_script_parameters = [u "x"; u "x"].
Proof. vm_compute. repeat split. Qed.

(** X17. On a document without a [podrobnost] heading and without a
    specification string the details are those of the first 50 list items,
    and the list returned has no empty entry, no two entries equal after
    collapsing white space, and at most 50 entries, in first-seen order. *)
Theorem extract_details_fallback soup :
  (forall tag, In tag header_tags ->
     find_all_string true tag (RLit (u "podrobnost")) soup = []) ->
  find_strings true spec_pattern soup = [] ->
  let out := extract_details soup in
  out = dedup ∅ [] (all_items soup [])
  /\ Forall (fun d => d <> []) out
  /\ NoDup (List.map collapse out)
  /\ sublist out (List.map collapse (all_items soup []))
  /\ (length out <= 50)%nat.
Proof.
  intros Hh Hs out.
  assert (E : out = dedup ∅ [] (all_items soup [])).
  { unfold out, extract_details. rewrite for_each_continue.
    - simpl and_then. rewrite Hs. reflexivity.
    - intros tag Htag. rewrite (Hh tag Htag). reflexivity. }
  split; [exact E|]. rewrite E.
  destruct (dedup_invariant (all_items soup [])) as (H1 & H2 & H3).
  repeat split; try assumption.
  apply sublist_length in H3. rewrite length_map in H3.
  change (all_items soup [])
    with (List.filter nonempty
            (List.map (get_text (u " ")) (take 50 (find_all (u "li") soup))))
    in H3 |- *.
  pose proof (List.filter_length_le nonempty
                (List.map (get_text (u " ")) (take 50 (find_all (u "li") soup)))) as H4.
  rewrite length_map, length_take in H4. lia.
Qed.

Lemma extract_details_fallback_witness :
  extract_details page_items_only = dedup ∅ [] (all_items page_items_only [])
  /\ (length (extract_details page_items_only) <= 50)%nat.
Proof.
  destruct (extract_details_fallback page_items_only) as (H1 & _ & _ & _ & H5).
  - intros tag Htag. unfold header_tags in Htag.
    repeat (destruct Htag as [<-|Htag]; [vm_compute; reflexivity|]).
    destruct Htag.
  - vm_compute. reflexivity.
  - split; assumption.
Defined.

(** X18. The walk over the siblings of a heading adds at most [count]
    entries (8 at line 160) to the details, none of them empty, and keeps
    what was collected before. *)
Theorem sibling_walk_bound count sib details :
  exists added_texts,
    sibling_walk count sib details = details ++ added_texts
    /\ (length added_texts <= count)%nat
    /\ Forall (fun d => d <> []) added_texts.
Proof.
  revert sib details. induction count as [|count IH]; intros sib details; simpl.
  - exists []. rewrite app_nil_r. split; [reflexivity|]. split; [simpl; lia|constructor].
  - destruct (find_next_sibling sib) as [sib'|].
    + destruct (nonempty (get_text (u " ") (here sib'))) eqn:E.
      * destruct (IH sib' (details ++ [get_text (u " ") (here sib')]))
          as (l & -> & Hl & Hne).
        exists (get_text (u " ") (here sib') :: l). rewrite <- app_assoc.
        split; [reflexivity|]. split; [simpl; lia|].
        constructor; [|exact Hne]. intros H. rewrite H in E. discriminate.
      * destruct (IH sib' details) as (l & -> & Hl & Hne).
        exists l. split; [reflexivity|]. split; [lia|exact Hne].
    + exists []. rewrite app_nil_r. split; [reflexivity|]. split; [simpl; lia|constructor].
Qed.

(** X19. Checking without persistence, saving the report's new snapshot with
    [save_state], and checking again the page retrieved unchanged: the second
    check compares against the saved snapshot and reports no change. *)
Theorem check_save_check env url html w :
  http_get env url = Ok html ->
  exists r1 w1 r2 w2,
    check_page env url false w = (Ok r1, w1)
    /\ check_page env url false (save_state env url (new r1) w1).2 = (Ok r2, w2)
    /\ old r2 = Some (new r1)
    /\ changed r2 = false /\ changes r2 = [].
Proof.
  intros H.
  destruct (check_page_no_save env url w html H) as (p & a & E1).
  rewrite E1. eexists _, _. 
  destruct (check_page_no_save env url
              (save_state env url
                 (new (summarize_changes (stored w url)
                    {| price := p; availability := a;
                       details := extract_details (lxml env html);
                       checked_at := isoformat env (clock w) ++ u "Z" |}))
                 (tick w)).2 html H) as (p' & a' & E2).
  rewrite E2. eexists _, _. split; [reflexivity|]. split; [reflexivity|].
  assert (Es : stored (save_state env url
                 (new (summarize_changes (stored w url)
                    {| price := p; availability := a;
                       details := extract_details (lxml env html);
                       checked_at := isoformat env (clock w) ++ u "Z" |}))
                 (tick w)).2 url
               = Some {| price := p; availability := a;
                         details := extract_details (lxml env html);
                         checked_at := isoformat env (clock w) ++ u "Z" |}).
  { unfold stored, save_state, upsert, utcnow_z, mbind, M_bind. simpl.
    rewrite lookup_insert_eq. destruct (stored w url); reflexivity. }
  rewrite Es.
  (* the two extractions of the same page agree *)
  assert (Ep : p' = p /\ a' = a).
  { pose proof E1 as E1'. pose proof E2 as E2'.
    unfold check_page, fetch_html, lift, mbind, M_bind in E1', E2'.
    rewrite H in E1', E2'.
    destruct (extract_price (lxml env html)) as [pp|]; [|discriminate].
    destruct (extract_availability (lxml env html)) as [aa|]; [|discriminate].
    simpl in E1', E2'.
    inversion E1' as [[Hp Ha]]. inversion E2' as [[Hp' Ha']].
    split; congruence. }
  destruct Ep as [-> ->].
  pose proof (summarize_changes_same_fields
    {| price := p; availability := a;
       details := extract_details (lxml env html);
       checked_at := isoformat env (clock w) ++ u "Z" |}
    {| price := p; availability := a;
       details := extract_details (lxml env html);
       checked_at := isoformat env
                       (clock (save_state env url
                          (new (summarize_changes (stored w url)
                             {| price := p; availability := a;
                                details := extract_details (lxml env html);
                                checked_at := isoformat env (clock w) ++ u "Z" |}))
                          (tick w)).2) ++ u "Z" |}
    eq_refl eq_refl eq_refl) as Hsame.
  split; [reflexivity|].
  split; [exact (f_equal fst Hsame)|exact (f_equal snd Hsame)].
Qed.

Lemma check_save_check_witness :
  exists r1 w1 r2 w2,
    check_page sample_env (u "http://a") false empty_world = (Ok r1, w1)
    /\ check_page sample_env (u "http://a") false
         (save_state sample_env (u "http://a") (new r1) w1).2 = (Ok r2, w2)
    /\ old r2 = Some (new r1)
    /\ changed r2 = false /\ changes r2 = [].
Proof.
  apply (check_save_check sample_env (u "http://a")
           (u "<p>Cena: 99 Kč</p><p>Skladem</p>") empty_world).
  vm_compute. reflexivity.
Defined.

Lemma mt_blocked {A} ic r : forall s c (k : @kont A),
  blocked ic r (head s) = true -> mt ic r s c k = None.
Proof.
  induction r as [cs| |a IHa b IHb|a IHa b IHb|lo hi a IHa|i a IHa];
    intros s c k H; simpl in H; try discriminate.
  - destruct s as [|x s]; simpl; [reflexivity|]. simpl in H.
    destruct (cset_mem ic cs x); [discriminate|reflexivity].
  - rewrite mt_seq. apply IHa, H.
  - apply andb_true_iff in H as [Ha Hb]. simpl. rewrite IHa, IHb by assumption.
    reflexivity.
  - destruct lo as [|lo]; [discriminate|]. simpl.
    destruct (match hi with Some h => h | None => length s end); simpl;
      [reflexivity|]. rewrite IHa by assumption. reflexivity.
  - rewrite mt_group. apply IHa, H.
Qed.

Lemma mt_opt_blocked {A} ic a s c (k : @kont A) :
  blocked ic a (head s) = true -> mt ic (ROpt a) s c k = k s c.
Proof.
  intros H. unfold ROpt. rewrite mt_rep_bounded. simpl.
  rewrite mt_blocked by assumption. reflexivity.
Qed.

Lemma mt_star_blocked {A} ic a s c (k : @kont A) :
  blocked ic a (head s) = true -> mt ic (RStar a) s c k = k s c.
Proof.
  intros H. unfold RStar. rewrite mt_rep_unbounded.
  destruct (length s); simpl; [reflexivity|].
  rewrite mt_blocked by assumption. reflexivity.
Qed.

Lemma mt_digit_cons {A} ic d s c (k : @kont A) :
  is_digit d = true -> mt ic (RSet CDigit) (d :: s) c k = k s c.
Proof.
  intros H. cbn [mt]. rewrite cset_mem_digit, H. reflexivity.
Qed.

(** Three digits are all that [\d{1,3}] takes. *)
Lemma mt_three_digits {A} ic d1 d2 d3 s c (k : @kont A) r :
  is_digit d1 = true -> is_digit d2 = true -> is_digit d3 = true ->
  k s c = Some r ->
  mt ic (RRep 1 (Some 3%nat) (RSet CDigit)) (d1 :: d2 :: d3 :: s) c k = Some r.
Proof.
  intros H1 H2 H3 Hk. rewrite mt_rep_bounded. cbn [rep Nat.pred].
  rewrite !mt_digit_cons by assumption. rewrite Hk. reflexivity.
Qed.

(** At a digit, or at the end of the text, the optional parts of the price
    pattern find nothing. *)
Lemma price_parts_blocked (h : option char) :
  match h with Some d => is_digit d = true | None => True end ->
  blocked false (RGroup 1 (RAlt (RSet (COneOf [8364; 36]))
                          (RAlt (RLit (u "Kč")) (RLit (u "CZK"))))) h = true
  /\ blocked false (RSet CSpace) h = true
  /\ blocked false (RSet (COneOf [43; 45])) h = true
  /\ blocked false (RSeq (RSet (COneOf [32; 160])) (RRep 3 (Some 3%nat) (RSet CDigit))) h
     = true
  /\ blocked false (RSeq (RSet (COneOf [46; 44])) (RPlus (RSet CDigit))) h = true
  /\ blocked false (RGroup 3 (RAlt (RLit (u "Kč"))
                             (RAlt (RLit (u "CZK"))
                             (RAlt (RLit [8364]) (RLit [36]))))) h = true.
Proof.
  destruct h as [d|]; [|intros _; repeat split].
  intros H.
  assert (E : forall c, is_digit c = false -> (d =? c) = false)
    by (intros c; apply digit_neq, H).
  assert (S : is_space d = false) by (apply digit_not_space, H).
  change (u "Kč") with [75; 269]. change (u "CZK") with [67; 90; 75].
  unfold COneOf, CSpace, RPlus.
  cbn [blocked RLit List.map cset_mem char_eq citem_mem class_cased existsb andb xorb].
  rewrite S, !E by reflexivity. repeat split.
Qed.

(** At three digits followed by a digit or by nothing, the price pattern
    matches the three digits and no more. *)
Lemma price_pattern_three_digits d1 d2 d3 s :
  is_digit d1 = true -> is_digit d2 = true -> is_digit d3 = true ->
  match head s with Some d => is_digit d = true | None => True end ->
  search false price_pattern (d1 :: d2 :: d3 :: s)
  = Some {| group0 := [d1; d2; d3]; groups := [(2%nat, [d1; d2; d3])] |}.
Proof.
  intros H1 H2 H3 Hs.
  destruct (price_parts_blocked (Some d1) H1) as (B1 & B2 & B3 & _).
  destruct (price_parts_blocked (head s) Hs) as (_ & C2 & _ & C4 & C5 & C6).
  assert (E : match_at false price_pattern (d1 :: d2 :: d3 :: s)
              = Some {| group0 := [d1; d2; d3]; groups := [(2%nat, [d1; d2; d3])] |}).
  { unfold match_at, price_pattern, grouped_number.
    rewrite mt_seq, mt_opt_blocked by exact B1.
    rewrite mt_seq, mt_star_blocked by exact B2.
    rewrite mt_seq, mt_group, mt_seq, mt_opt_blocked by exact B3.
    rewrite mt_seq.
    apply mt_three_digits; try assumption.
    rewrite mt_seq, mt_star_blocked by exact C4.
    rewrite mt_opt_blocked by exact C5.
    rewrite mt_seq, mt_star_blocked by exact C2.
    rewrite mt_opt_blocked by exact C6.
    pose proof (consumed_app [d1; d2; d3] s) as Hc.
    change ([d1; d2; d3] ++ s) with (d1 :: d2 :: d3 :: s) in Hc.
    rewrite !Hc. reflexivity. }
  simpl search. rewrite E. reflexivity.
Qed.

Lemma strip_digits_head d1 d2 d3 d4 rest :
  is_digit d1 = true -> is_digit d4 = true ->
  exists rest', strip (d1 :: d2 :: d3 :: d4 :: rest) = d1 :: d2 :: d3 :: d4 :: rest'.
Proof.
  intros H1 H4. unfold strip. rewrite lstrip_solid by (apply digit_not_space, H1).
  unfold rstrip.
  replace (rev (d1 :: d2 :: d3 :: d4 :: rest)) with (rev rest ++ [d4; d3; d2; d1])
    by (simpl rev; rewrite <- !app_assoc; reflexivity).
  destruct (lstrip_keep (rev rest) [d4; d3; d2; d1]) as [p ->];
    [apply digit_not_space, H4|].
  rewrite rev_app_distr. exists (rev p). reflexivity.
Qed.

(** X20. Digits written without a separator are cut after the third: of a
    text that begins with four digits or more the normalizer reads only the
    first three, as if nothing followed them. *)
Theorem normalize_price_truncates d1 d2 d3 d4 rest :
  is_digit d1 = true -> is_digit d2 = true ->
  is_digit d3 = true -> is_digit d4 = true ->
  normalize_price (Some (d1 :: d2 :: d3 :: d4 :: rest))
  = normalize_price (Some [d1; d2; d3]).
Proof.
  intros H1 H2 H3 H4.
  destruct (strip_digits_head d1 d2 d3 d4 rest H1 H4) as [rest' Hs].
  assert (Hs3 : strip [d1; d2; d3] = [d1; d2; d3]).
  { apply strip_solid; simpl; apply digit_not_space; assumption. }
  unfold normalize_price. rewrite Hs, Hs3.
  rewrite (price_pattern_three_digits d1 d2 d3 (d4 :: rest')) by assumption.
  rewrite (price_pattern_three_digits d1 d2 d3 []) by (simpl; auto).
  reflexivity.
Qed.

Lemma normalize_price_truncates_witness :
  normalize_price (Some (u "1234,50 Kč")) = Ok (Some (u "123.00")).
Proof.
  change (u "1234,50 Kč") with (49 :: 50 :: 51 :: 52 :: u ",50 Kč").
  rewrite normalize_price_truncates by reflexivity.
  vm_compute. reflexivity.
Defined.

Lemma changed_iff_changes_witness :
  changed (summarize_changes (Some (snap None None [u "A"])) (snap None None [u "B"]))
  = true.
Proof.
  apply (proj1 (changed_iff_changes (Some (snap None None [u "A"]))
                  (snap None None [u "B"]))).
  vm_compute. discriminate.
Defined.

Lemma save_then_load_witness :
  (load_state (u "http://b")
     (save_state sample_env (u "http://a") (snap None None []) empty_world).2).1
  = (load_state (u "http://b") empty_world).1.
Proof.
  apply (proj1 (proj2 (proj2 (save_then_load sample_env (u "http://a")
                                (snap None None []) empty_world)))).
  discriminate.
Defined.

Lemma extract_availability_None_witness :
  extract_availability page_items_only = Ok None.
Proof.
  apply extract_availability_None. split; [vm_compute; reflexivity|].
  split; [vm_compute; reflexivity|].
  intros kw Hkw. unfold keywords in Hkw.
  repeat (destruct Hkw as [<-|Hkw]; [vm_compute; reflexivity|]).
  destruct Hkw.
Defined.
